(** * ZetValidation: schema nodes, combinators and refinements

    A shallow embedding of [src/ZetSchema.ts] and [src/primitives.ts]
    (with the call that [src/useZetForm.ts] makes into them), and the
    properties of the evaluation entry points, the refinement methods,
    the sequence and record combinators, the cache and the conditional
    dispatch.

    Modelling conventions.
    - JavaScript numbers that the code compares are byte counts, pixel
      counts and limits; they are integers here ([Z]), standing for the
      safe integers (below [2^53] in absolute value), whose JSON text is
      their decimal numeral.
    - A JavaScript object used as a dictionary ([errors], [shape]) is an
      association list in creation order; enumeration ([Object.keys],
      [Object.values], [Object.entries], [JSON.stringify]) lists array
      index keys first, in ascending order, then the other keys in
      creation order, as the language prescribes.  Inherited properties
      ([toString], [constructor], ...) are not part of the model: what is
      stated about an unregistered stage or about a property a candidate
      does not own excludes the names of [Object.prototype].
    - Promises: a computation is a tree of microtask steps ([run]); the
      jobs of one generation of the microtask queue run in the order of
      the tasks that own them, so concurrent tasks ([Promise.all]) advance
      in lockstep, in index order.  Rejected promises are not modelled:
      the external collaborators (image and media probing, canvas,
      server checks) always fulfil. *)

From Stdlib Require Import ZArith Ascii String List Bool Lia FunctionalExtensionality.
From stdpp Require Import base option list gmap strings pretty.

Set Warnings "-register-all".

Local Open Scope string_scope.
Local Open Scope Z_scope.

(** ** JavaScript values *)

Record File := mkFile {
  f_id : nat;            (* object identity *)
  f_name : string;
  f_type : string;
  f_size : Z
}.

Inductive value :=
| VUndefined
| VNull
| VBool (b : bool)
| VNum (n : Z)
| VStr (s : string)
| VFile (f : File)
| VArr (items : list value)
| VObj (props : list (string * value)).

(** ** Objects used as dictionaries *)

Module JsObj.

Definition t (A : Type) := list (string * A).

Definition digit_of (c : ascii) : option N :=
  let n := N_of_ascii c in
  if ((48 <=? n) && (n <=? 57))%N then Some (n - 48)%N else None.

Fixpoint digits_value (acc : N) (s : string) : option N :=
  match s with
  | EmptyString => Some acc
  | String c s' =>
      match digit_of c with
      | Some d => digits_value (acc * 10 + d)%N s'
      | None => None
      end
  end.

(** [array_index k]: [k] is the canonical decimal form of an integer
    below [2^32 - 1]. *)
Definition array_index (k : string) : option N :=
  match k with
  | EmptyString => None
  | String c rest =>
      if andb (Ascii.eqb c "0"%char) (negb (String.eqb rest EmptyString)) then None
      else if (10 <? String.length k)%nat then None
      else match digits_value 0%N k with
           | Some n => if (n <? 4294967295)%N then Some n else None
           | None => None
           end
  end.

Section Ops.
Context {A : Type}.

Fixpoint get (k : string) (o : t A) : option A :=
  match o with
  | [] => None
  | (k', v) :: o' => if String.eqb k k' then Some v else get k o'
  end.

(** Plain property write: replaces the value of a present key in place,
    appends an absent key. *)
Fixpoint put (k : string) (v : A) (o : t A) : t A :=
  match o with
  | [] => [(k, v)]
  | (k', v') :: o' => if String.eqb k k' then (k', v) :: o' else (k', v') :: put k v o'
  end.

(** [o[k] = v] for a primitive [v]: a write to [__proto__] goes to the
    inherited setter, which ignores primitives. *)
Definition set (k : string) (v : A) (o : t A) : t A :=
  if String.eqb k "__proto__" then o else put k v o.

Fixpoint insert_index (e : N * (string * A)) (l : list (N * (string * A))) :=
  match l with
  | [] => [e]
  | e' :: l' => if (fst e <? fst e')%N then e :: l else e' :: insert_index e l'
  end.

Definition index_entries (o : t A) : list (N * (string * A)) :=
  omap (fun e => match array_index (fst e) with Some n => Some (n, e) | None => None end) o.

Definition name_entries (o : t A) : t A :=
  List.filter (fun e => match array_index (fst e) with Some _ => false | None => true end) o.

(** [Object.entries], [Object.keys], [Object.values]. *)
Definition entries (o : t A) : t A :=
  (List.map snd (fold_right insert_index [] (index_entries o)) ++ name_entries o)%list.

Definition keys (o : t A) : list string := List.map fst (entries o).
Definition values (o : t A) : list A := List.map snd (entries o).

(** [Object.assign(target, source)]. *)
Definition assign (target source : t A) : t A :=
  fold_left (fun acc e => set (fst e) (snd e) acc) (entries source) target.

End Ops.

End JsObj.

(** ** [JSON.stringify] *)

Module JSON.

Definition dquote : string := String (ascii_of_nat 34) EmptyString.

Definition hex_digit (n : N) : ascii :=
  if (n <? 10)%N then ascii_of_N (48 + n) else ascii_of_N (87 + n).

Definition escape_char (c : ascii) : string :=
  let n := N_of_ascii c in
  if (n =? 34)%N then String (ascii_of_nat 92) dquote
  else if (n =? 92)%N then String (ascii_of_nat 92) (String (ascii_of_nat 92) EmptyString)
  else if (n =? 8)%N then String (ascii_of_nat 92) "b"
  else if (n =? 12)%N then String (ascii_of_nat 92) "f"
  else if (n =? 10)%N then String (ascii_of_nat 92) "n"
  else if (n =? 13)%N then String (ascii_of_nat 92) "r"
  else if (n =? 9)%N then String (ascii_of_nat 92) "t"
  else if (n <? 32)%N then
    String (ascii_of_nat 92)
      ("u00" ++ String (hex_digit (n / 16)) (String (hex_digit (n mod 16)) EmptyString))
  else String c EmptyString.

Fixpoint escape (s : string) : string :=
  match s with
  | EmptyString => EmptyString
  | String c s' => escape_char c ++ escape s'
  end.

Definition quote (s : string) : string := dquote ++ escape s ++ dquote.

Fixpoint join (sep : string) (l : list string) : string :=
  match l with
  | [] => EmptyString
  | [x] => x
  | x :: l' => x ++ sep ++ join sep l'
  end.

(** [serialize v] is [None] where [JSON.stringify] yields [undefined].
    A number is written as its decimal numeral, which is the JSON text
    of a safe integer; larger numbers, which JavaScript rounds and from
    [1e21] on writes with an exponent, are outside this function. *)
Fixpoint serialize (v : value) : option string :=
  match v with
  | VUndefined => None
  | VNull => Some "null"
  | VBool true => Some "true"
  | VBool false => Some "false"
  | VNum n => Some (pretty n)
  | VStr s => Some (quote s)
  | VFile _ => Some "{}"
  | VArr items =>
      Some ("[" ++ join ","
              (List.map (fun x => match serialize x with Some s => s | None => "null" end) items)
            ++ "]")
  | VObj props =>
      let members :=
        JsObj.entries
          ((fix each (l : list (string * value)) : list (string * option string) :=
              match l with
              | [] => []
              | (k, x) :: l' => (k, serialize x) :: each l'
              end) props) in
      Some ("{" ++ join ","
              (omap (fun m => match snd m with
                              | Some s => Some (quote (fst m) ++ ":" ++ s)
                              | None => None
                              end) members)
            ++ "}")
  end.

(** The text a template literal inserts for [JSON.stringify(v)]. *)
Definition stringify (v : value) : string :=
  match serialize v with
  | Some s => s
  | None => "undefined"
  end.

End JSON.

(** ** Outcomes, the shared state and promises *)

Inductive ValidationResult :=
| Success (data : value)
| Failure (errors : JsObj.t string).

(** What a test double or an external collaborator can leave behind. *)
Inductive event :=
| Called (label : string) (arg : value)
| Progress (field : string) (percent : Z).

(** The mutable state evaluation runs in: the [Map] objects created by
    [setCache], by identity, and a trace of observable calls. *)
Record world := mkWorld {
  caches : gmap nat (gmap string ValidationResult);
  trace : list event
}.

Definition emit (e : event) (w : world) : world :=
  mkWorld (caches w) (trace w ++ [e])%list.

(** A promise: settled with a value, or pending on a job of the next
    generation of the microtask queue. *)
Inductive run (A : Type) : Type :=
| Done (a : A)
| Pending (k : world -> world * run A).
Arguments Done {A} a.
Arguments Pending {A} k.

(** What a possibly asynchronous function hands back: a plain value or
    a promise ([result instanceof Promise]). *)
Inductive ret (A : Type) : Type :=
| Plain (a : A)
| Promise (p : run A).
Arguments Plain {A} a.
Arguments Promise {A} p.

Module Async.

Section Combinators.
Context {A B : Type}.

(** Drive a promise until it settles. *)
Fixpoint finish (p : run A) (w : world) : world * A :=
  match p with
  | Done a => (w, a)
  | Pending k => let '(w', p') := k w in finish p' w'
  end.

(** [await p] inside an async function: the continuation is a job of the
    generation after the one in which [p] settles. *)
Fixpoint await_run (p : run A) (k : A -> world -> world * run B) : run B :=
  match p with
  | Done a => Pending (k a)
  | Pending step => Pending (fun w => let '(w', p') := step w in (w', await_run p' k))
  end.

Definition await (r : ret A) (k : A -> world -> world * run B) : run B :=
  match r with
  | Plain a => Pending (k a)
  | Promise p => await_run p k
  end.

(** [p.then(f)] for a callback that returns a plain value. *)
Definition then_ (p : run A) (f : A -> world -> world * B) : run B :=
  await_run p (fun a w => let '(w', b) := f a w in (w', Done b)).

(** Number the generations a promise takes to settle. *)
Fixpoint stamp (n : nat) (p : run A) : run (nat * A) :=
  match p with
  | Done a => Done (n, a)
  | Pending k => Pending (fun w => let '(w', p') := k w in (w', stamp (S n) p'))
  end.

Fixpoint map_run (f : A -> B) (p : run A) : run B :=
  match p with
  | Done a => Done (f a)
  | Pending k => Pending (fun w => let '(w', p') := k w in (w', map_run f p'))
  end.

End Combinators.

(** Two promises advancing together: in each generation the job of the
    first runs before the job of the second. *)
Fixpoint both {A B : Type} (p : run A) (q : run B) {struct p} : run (A * B) :=
  match p with
  | Done a => map_run (fun b => (a, b)) q
  | Pending kp =>
      (fix with_q (q : run B) : run (A * B) :=
         match q with
         | Done b => map_run (fun a => (a, b)) p
         | Pending kq =>
             Pending (fun w =>
               let '(w1, p') := kp w in
               let '(w2, q') := kq w1 in
               (w2, both p' q'))
         end) q
  end.

Fixpoint all {A : Type} (ps : list (run A)) : run (list A) :=
  match ps with
  | [] => Done []
  | p :: ps' => map_run (fun '(a, l) => a :: l) (both p (all ps'))
  end.

(** [Promise.all(ps)]: settled at once for no element, otherwise by the
    reaction job that follows the last element to settle. *)
Definition promise_all {A : Type} (ps : list (run A)) : run (list A) :=
  match ps with
  | [] => Done []
  | _ => then_ (all ps) (fun l w => (w, l))
  end.

(** Stable ordering of stamped completions by generation. *)
Fixpoint insert_by_time {A : Type} (e : nat * A) (l : list (nat * A)) : list (nat * A) :=
  match l with
  | [] => [e]
  | e' :: l' => if (fst e <=? fst e')%nat then e :: l else e' :: insert_by_time e l'
  end.

Definition by_completion {A : Type} (l : list (nat * A)) : list A :=
  List.map snd (fold_right insert_by_time [] l).

End Async.

(** ** Validation nodes ([src/ZetSchema.ts]) *)

(** The caller's progress callback [(field, progress) => ...]. *)
Definition on_progress := string -> Z -> world -> world.

(** [(value, parent?, { onProgress }?) => ValidationResult | Promise];
    an absent [parent] is [VUndefined]. *)
Definition validator_fn :=
  value -> value -> option on_progress -> world -> world * ret ValidationResult.

(** A thrown or returned completion of [parse]. *)
Inductive completion :=
| Returned (v : value)
| Threw (message : string).

Record ZetSchema := mkSchema {
  validator : validator_fn;
  description : string;
  transformFn : option (value -> value);
  cacheMap : option nat;
  stages : gmap string validator_fn
}.

(** The constructor: [description] defaults to ["value"], and the
    [default] stage is seeded with the validator. *)
Definition new_ZetSchema (v : validator_fn) (d : option string)
    (t : option (value -> value)) (c : option nat) : ZetSchema :=
  mkSchema v (default "value" d) t c {["default" := v]}.

(** The names every plain object inherits from [Object.prototype]. *)
Definition object_prototype_member (name : string) : bool :=
  existsb (String.eqb name)
    ["constructor"; "__defineGetter__"; "__defineSetter__"; "hasOwnProperty";
     "__lookupGetter__"; "__lookupSetter__"; "isPrototypeOf"; "propertyIsEnumerable";
     "toString"; "valueOf"; "__proto__"; "toLocaleString"].

(** [this.stages[stage] ? this.stages[stage] : this.validator], on the
    table's own entries.  [stages] is a plain object: a name that is a
    member of [Object.prototype] and has no entry of its own finds the
    inherited member there, which is no validator; what is stated about
    a stage that is not registered is stated for the other names
    ([object_prototype_member stage = false]). *)
Definition stage_fn (this : ZetSchema) (stage : string) : validator_fn :=
  match stages this !! stage with
  | Some f => f
  | None => validator this
  end.

Definition apply_transform (this : ZetSchema) (res : ValidationResult) : ValidationResult :=
  match res, transformFn this with
  | Success d, Some f => Success (f d)
  | _, _ => res
  end.

Definition cache_key (stage : string) (v : value) : string :=
  stage ++ ":" ++ JSON.stringify v.

Definition cache_get (c : nat) (key : string) (w : world) : option ValidationResult :=
  match caches w !! c with
  | Some m => m !! key
  | None => None
  end.

Definition cache_set (c : nat) (key : string) (r : ValidationResult) (w : world) : world :=
  mkWorld (<[c := <[key := r]> (default ∅ (caches w !! c))]> (caches w)) (trace w).

Definition store_result (this : ZetSchema) (key : string) (r : ValidationResult)
    (w : world) : world :=
  match cacheMap this with
  | Some c => cache_set c key r w
  | None => w
  end.

Definition first_message (errors : JsObj.t string) : string :=
  match JsObj.values errors with
  | m :: _ => m
  | [] => EmptyString
  end.

Definition parse_result (this : ZetSchema) (res : ValidationResult) : completion :=
  match res with
  | Success d => Returned (match transformFn this with Some f => f d | None => d end)
  | Failure errors => Threw (first_message errors)
  end.

Definition parse (this : ZetSchema) (v parent : value) (stage : string)
    (w : world) : world * ret completion :=
  let '(w1, result) := stage_fn this stage v parent None w in
  match result with
  | Promise p => (w1, Promise (Async.then_ p (fun res w' => (w', parse_result this res))))
  | Plain res => (w1, Plain (parse_result this res))
  end.


(** [safeParse] declares three parameters; a fourth argument, as the
    form hook passes, is accepted and not read. *)
Definition safeParse (this : ZetSchema) (v parent : value) (stage : string)
    (extra : option on_progress) (w : world) : world * ret ValidationResult :=
  let key := cache_key stage v in
  match match cacheMap this with Some c => cache_get c key w | None => None end with
  | Some cached => (w, Plain cached)
  | None =>
      let '(w1, result) := stage_fn this stage v parent None w in
      match result with
      | Promise p =>
          (w1, Promise (Async.then_ p (fun res w' =>
                  let finalRes := apply_transform this res in
                  (store_result this key finalRes w', finalRes))))
      | Plain res =>
          let finalRes := apply_transform this res in
          (store_result this key finalRes w1, Plain finalRes)
      end
  end.

(** Wait for whatever an entry point handed back. *)
Definition settle {A : Type} (c : world * ret A) : world * A :=
  match c with
  | (w, Plain a) => (w, a)
  | (w, Promise p) => Async.finish p w
  end.

(** ** Derivation methods *)

Definition describe (this : ZetSchema) (d : string) : ZetSchema :=
  new_ZetSchema (validator this) (Some d) (transformFn this) (cacheMap this).

Definition setTransform (this : ZetSchema) (fn : value -> value) : ZetSchema :=
  new_ZetSchema (validator this) (Some (description this)) (Some fn) (cacheMap this).

Definition optional (this : ZetSchema) : ZetSchema :=
  new_ZetSchema
    (fun v _ _ w =>
       match v with
       | VUndefined => (w, Plain (Success VUndefined))
       | _ => validator this v VUndefined None w
       end)
    (Some (description this)) (transformFn this) (cacheMap this).

Definition extend (this : ZetSchema) : ZetSchema :=
  new_ZetSchema (validator this) (Some (description this)) (transformFn this) (cacheMap this).

(** [setCache]: [fresh] is the identity of the [new Map()]. *)
Definition setCache (this : ZetSchema) (fresh : nat) : ZetSchema :=
  new_ZetSchema (validator this) (Some (description this)) (transformFn this) (Some fresh).

(** [parent ?? {}] *)
Definition or_empty (parent : value) : value :=
  match parent with
  | VUndefined | VNull => VObj []
  | _ => parent
  end.

Definition when (this : ZetSchema) (condition : value -> bool)
    (then_branch otherwise : ZetSchema -> ZetSchema) : ZetSchema :=
  new_ZetSchema
    (fun v parent _ w =>
       validator (if condition (or_empty parent) then then_branch this else otherwise this)
         v parent None w)
    (Some (description this)) (transformFn this) (cacheMap this).

(** ** Refinement methods *)

(** [message || fallback] *)
Definition or_default (message : option string) (fallback : string) : string :=
  match message with
  | Some m => if String.eqb m EmptyString then fallback else m
  | None => fallback
  end.

Definition includes (l : list string) (s : string) : bool :=
  existsb (String.eqb s) l.

Definition startsWith (s p : string) : bool := String.prefix p s.

Definition MB (n : Z) : Z := n * 1024 * 1024.

Definition type (this : ZetSchema) (allowedTypes : list string)
    (message : option string) : ZetSchema :=
  new_ZetSchema
    (fun v _ _ w =>
       let '(w1, r) := validator this v VUndefined None w in
       (w1, Promise (Async.await r (fun result w' =>
          match result with
          | Failure _ => (w', Done result)
          | Success (VFile f) =>
              if negb (includes allowedTypes (f_type f)) then
                (w', Done (Failure [(description this,
                   or_default message
                     (description this ++ " must be one of: " ++ JSON.join ", " allowedTypes))]))
              else (w', Done result)
          | Success _ => (w', Done result)
          end))))
    (Some (description this)) (transformFn this) (cacheMap this).

Definition maxSizeMB (this : ZetSchema) (maxMB : Z) (message : option string) : ZetSchema :=
  new_ZetSchema
    (fun v _ _ w =>
       let '(w1, r) := validator this v VUndefined None w in
       (w1, Promise (Async.await r (fun result w' =>
          match result with
          | Failure _ => (w', Done result)
          | Success (VFile f) =>
              if MB maxMB <? f_size f then
                (w', Done (Failure [(description this,
                   or_default message
                     (description this ++ " must not exceed " ++ pretty maxMB ++ "MB"))]))
              else (w', Done result)
          | Success _ => (w', Done result)
          end))))
    (Some (description this)) (transformFn this) (cacheMap this).

Definition namePattern (this : ZetSchema) (regex_test : string -> bool)
    (message : option string) : ZetSchema :=
  new_ZetSchema
    (fun v _ _ w =>
       let '(w1, r) := validator this v VUndefined None w in
       (w1, Promise (Async.await r (fun result w' =>
          match result with
          | Failure _ => (w', Done result)
          | Success (VFile f) =>
              if negb (regex_test (f_name f)) then
                (w', Done (Failure [(description this,
                   or_default message
                     (description this ++ " name does not match the required pattern"))]))
              else (w', Done result)
          | Success _ => (w', Done result)
          end))))
    (Some (description this)) (transformFn this) (cacheMap this).

Fixpoint toLowerCase (s : string) : string :=
  match s with
  | EmptyString => EmptyString
  | String c s' =>
      let n := N_of_ascii c in
      String (if ((65 <=? n) && (n <=? 90))%N then ascii_of_N (n + 32) else c)
             (toLowerCase s')
  end.

(** The fixed extension table. *)
Definition mimeMap (ext : string) : option string :=
  if String.eqb ext "jpg" then Some "image/jpeg"
  else if String.eqb ext "png" then Some "image/png"
  else if String.eqb ext "mp4" then Some "video/mp4"
  else if String.eqb ext "mp3" then Some "audio/mpeg"
  else None.

(** Lower-case names the table object inherits: looking them up yields
    an object, which no MIME string equals. *)
Definition inherited_name (ext : string) : bool :=
  String.eqb ext "constructor" || String.eqb ext "__proto__".

Definition extension (this : ZetSchema) (extensions : list string)
    (message : option string) : ZetSchema :=
  let allowedTypes :=
    omap (fun ext =>
            match mimeMap (toLowerCase ext) with
            | Some m => Some m
            | None =>
                if inherited_name (toLowerCase ext) then None
                else Some ("application/" ++ ext)
            end) extensions in
  type this allowedTypes
    (Some (or_default message
             (description this ++ " must have one of these extensions: "
              ++ JSON.join ", " extensions))).

(** Refinements that go through the browser.  The collaborators are the
    promises the code awaits: the loaded image's width and height, the
    loaded media's duration in seconds, and the canvas re-encoding, which
    gives the identity and the size of the recompressed file. *)
Section Browser.

Variable load_image : File -> world -> world * run (Z * Z).
Variable load_media : bool -> File -> world -> world * run Z.
Variable Quality : Type.
Variable canvas_to_blob : File -> Z * Z -> Quality -> world -> world * run (nat * Z).

Record bounds := mkBounds {
  minWidth : option Z;
  maxWidth : option Z;
  minHeight : option Z;
  maxHeight : option Z
}.

(** [limit && test limit]: an absent or zero limit is not checked. *)
Definition violated (limit : option Z) (test : Z -> bool) (text : Z -> string) : list string :=
  match limit with
  | Some l => if negb (l =? 0) && test l then [text l] else []
  | None => []
  end.

Definition dimension_errors (b : bounds) (width height : Z) : list string :=
  List.concat
    [ violated (minWidth b) (fun l => width <? l)
        (fun l => "width must be at least " ++ pretty l ++ "px");
      violated (maxWidth b) (fun l => l <? width)
        (fun l => "width must not exceed " ++ pretty l ++ "px");
      violated (minHeight b) (fun l => height <? l)
        (fun l => "height must be at least " ++ pretty l ++ "px");
      violated (maxHeight b) (fun l => l <? height)
        (fun l => "height must not exceed " ++ pretty l ++ "px") ].

Definition dimensions (this : ZetSchema) (b : bounds) (message : option string) : ZetSchema :=
  new_ZetSchema
    (fun v _ _ w =>
       let '(w1, r) := validator this v VUndefined None w in
       (w1, Promise (Async.await r (fun result w' =>
          match result with
          | Failure _ => (w', Done result)
          | Success (VFile f) =>
              if negb (startsWith (f_type f) "image/") then (w', Done result)
              else
                let '(w2, loading) := load_image f w' in
                (w2, Async.await_run loading (fun '(width, height) w3 =>
                   match dimension_errors b width height with
                   | [] => (w3, Done result)
                   | errors =>
                       (w3, Done (Failure [(description this,
                          or_default message
                            (description this ++ " has invalid dimensions: "
                             ++ JSON.join ", " errors))]))
                   end))
          | Success _ => (w', Done result)
          end))))
    (Some (description this)) (transformFn this) (cacheMap this).

Definition maxDuration (this : ZetSchema) (seconds : Z) (message : option string) : ZetSchema :=
  new_ZetSchema
    (fun v _ _ w =>
       let '(w1, r) := validator this v VUndefined None w in
       (w1, Promise (Async.await r (fun result w' =>
          match result with
          | Failure _ => (w', Done result)
          | Success (VFile f) =>
              if negb (startsWith (f_type f) "video/") && negb (startsWith (f_type f) "audio/")
              then (w', Done result)
              else
                let '(w2, loading) := load_media (startsWith (f_type f) "video/") f w' in
                (w2, Async.await_run loading (fun duration w3 =>
                   if seconds <? duration then
                     (w3, Done (Failure [(description this,
                        or_default message
                          (description this ++ " must not exceed " ++ pretty seconds
                           ++ " seconds"))]))
                   else (w3, Done result)))
          | Success _ => (w', Done result)
          end))))
    (Some (description this)) (transformFn this) (cacheMap this).

Definition compress (this : ZetSchema) (maxSize : Z) (quality : Quality)
    (message : option string) : ZetSchema :=
  new_ZetSchema
    (fun v _ _ w =>
       let '(w1, r) := validator this v VUndefined None w in
       (w1, Promise (Async.await r (fun result w' =>
          match result with
          | Failure _ => (w', Done result)
          | Success (VFile f) =>
              if negb (startsWith (f_type f) "image/") then (w', Done result)
              else if f_size f <=? MB maxSize then (w', Done result)
              else
                let '(w2, loading) := load_image f w' in
                (w2, Async.await_run loading (fun size w3 =>
                   let '(w4, encoding) := canvas_to_blob f size quality w3 in
                   (w4, Async.await_run encoding (fun '(id, bytes) w5 =>
                      let compressedFile := mkFile id (f_name f) (f_type f) bytes in
                      if MB maxSize <? f_size compressedFile then
                        (w5, Done (Failure [(description this,
                           or_default message
                             (description this ++ " could not be compressed below "
                              ++ pretty maxSize ++ "MB"))]))
                      else (w5, Done (Success (VFile compressedFile)))))))
          | Success _ => (w', Done result)
          end))))
    (Some (description this)) (transformFn this) (cacheMap this).

Definition metadata (this : ZetSchema) (check : Z * Z -> bool)
    (message : option string) : ZetSchema :=
  new_ZetSchema
    (fun v _ _ w =>
       let '(w1, r) := validator this v VUndefined None w in
       (w1, Promise (Async.await r (fun result w' =>
          match result with
          | Failure _ => (w', Done result)
          | Success (VFile f) =>
              if negb (startsWith (f_type f) "image/") then (w', Done result)
              else
                let '(w2, loading) := load_image f w' in
                (w2, Async.await_run loading (fun size w3 =>
                   if negb (check size) then
                     (w3, Done (Failure [(description this,
                        or_default message (description this ++ " metadata is invalid"))]))
                   else (w3, Done result)))
          | Success _ => (w', Done result)
          end))))
    (Some (description this)) (transformFn this) (cacheMap this).

End Browser.

(** Externally delegated checks.  [check] and [mutationFn] are the
    caller's asynchronous functions. *)

Definition serverValidate (this : ZetSchema)
    (check : File -> (Z -> world -> world) -> world -> world * run bool)
    (message : option string) : ZetSchema :=
  new_ZetSchema
    (fun v parent opts w =>
       let '(w1, r) := validator this v parent None w in
       (w1, Promise (Async.await r (fun result w' =>
          match result with
          | Failure _ => (w', Done result)
          | Success (VFile f) =>
              let '(w2, checking) :=
                check f (fun progress =>
                           match opts with
                           | Some onProgress => onProgress (description this) progress
                           | None => fun w0 => w0
                           end) w' in
              (w2, Async.await_run checking (fun isValid w3 =>
                 if negb isValid then
                   (w3, Done (Failure [(description this,
                      or_default message "Server rejected the file")]))
                 else (w3, Done result)))
          | Success _ => (w', Done result)
          end))))
    (Some (description this)) (transformFn this) (cacheMap this).

Definition query (this : ZetSchema)
    (mutationFn : value -> world -> world * run bool) (errorMessage : string) : ZetSchema :=
  new_ZetSchema
    (fun v _ _ w =>
       let '(w1, r) := validator this v VUndefined None w in
       (w1, Promise (Async.await r (fun result w' =>
          match result with
          | Failure _ => (w', Done result)
          | Success d =>
              let '(w2, checking) := mutationFn d w' in
              (w2, Async.await_run checking (fun isValid w3 =>
                 if negb isValid then
                   (w3, Done (Failure [(description this, errorMessage)]))
                 else (w3, Done result)))
          end))))
    (Some (description this)) (transformFn this) (cacheMap this).

Definition aiValidate (this : ZetSchema)
    (check : File -> world -> world * run bool) (message : option string) : ZetSchema :=
  new_ZetSchema
    (fun v _ _ w =>
       let '(w1, r) := validator this v VUndefined None w in
       (w1, Promise (Async.await r (fun result w' =>
          match result with
          | Failure _ => (w', Done result)
          | Success (VFile f) =>
              let '(w2, checking) := check f w' in
              (w2, Async.await_run checking (fun isValid w3 =>
                 if negb isValid then
                   (w3, Done (Failure [(description this,
                      or_default message "AI rejected the file")]))
                 else (w3, Done result)))
          | Success _ => (w', Done result)
          end))))
    (Some (description this)) (transformFn this) (cacheMap this).

Definition toJSON (this : ZetSchema) : JsObj.t (option string) :=
  [("description", Some (description this)); ("validator", Some "serialized");
   ("transform", match transformFn this with Some _ => Some "serialized" | None => None end)].

Definition fromJSON (json_description : option string) : ZetSchema :=
  new_ZetSchema (fun v _ _ w => (w, Plain (Success v))) json_description None None.

(** ** Base types and structural combinators ([src/primitives.ts]) *)

Module primitives.

Definition slice (i j : nat) (items : list value) : list value :=
  take (j - i) (drop i items).

(** [value[key]] on own properties: the properties of an object, the
    elements and the length of an array, the name, type and size of a
    file.  A key the value only inherits ([constructor], [toString],
    the methods of arrays, the other members of a file) is outside this
    function; what is stated of a candidate's property is stated for
    objects and keys they own or do not inherit. *)
Definition get_prop (v : value) (key : String.string) : value :=
  match v with
  | VObj props => default VUndefined (JsObj.get key props)
  | VArr items =>
      match JsObj.array_index key with
      | Some n => nth (N.to_nat n) items VUndefined
      | None =>
          if String.eqb key "length" then VNum (Z.of_nat (length items)) else VUndefined
      end
  | VFile f =>
      if String.eqb key "name" then VStr (f_name f)
      else if String.eqb key "type" then VStr (f_type f)
      else if String.eqb key "size" then VNum (f_size f)
      else VUndefined
  | _ => VUndefined
  end.

(** [typeof v === "object" && v !== null] *)
Definition is_object (v : value) : bool :=
  match v with
  | VObj _ | VArr _ | VFile _ => true
  | _ => false
  end.

Definition file : ZetSchema :=
  new_ZetSchema
    (fun v _ _ w =>
       match v with
       | VFile _ => (w, Plain (Success v))
       | _ => (w, Plain (Failure [("value", "Expected a file")]))
       end)
    None None None.

(** [Object.keys(errors).length > 0 ? failure : success] *)
Definition conclude (errors : JsObj.t String.string) (data : value) : ValidationResult :=
  if (0 <? length (JsObj.keys errors))%nat then Failure errors else Success data.

Section Array.

Variable itemSchema : ZetSchema.
Variable concurrency : nat.

(** [batch.map(async (item, index) => ...)] up to each callback's first
    suspension: the calls to [safeParse] happen in order, at once. *)
Fixpoint start_batch (index : nat) (batch : list value) (w : world)
    : world * list (run (nat * ValidationResult)) :=
  match batch with
  | [] => (w, [])
  | item :: rest =>
      let '(w1, r) := safeParse itemSchema item VUndefined "default" None w in
      let '(w2, ps) := start_batch (S index) rest w1 in
      (w2, Async.await r (fun itemResult w' => (w', Done (index, itemResult))) :: ps)
  end.

(** What a callback does once its item's outcome is there. *)
Definition record_item (acc : list value * JsObj.t String.string)
    (done : nat * ValidationResult) : list value * JsObj.t String.string :=
  match snd done with
  | Failure errs =>
      (fst acc,
       fold_left (fun errors e =>
                    JsObj.set (pretty (fst done) ++ "." ++ fst e) (snd e) errors)
                 (JsObj.entries errs) (snd acc))
  | Success data => ((fst acc ++ [data])%list, snd acc)
  end.

(** The [for] loop; [fuel] bounds the number of iterations. *)
Fixpoint array_loop (fuel : nat) (items : list value) (i : nat)
    (result : list value) (errors : JsObj.t String.string) (w : world)
    : world * run ValidationResult :=
  match fuel with
  | O => (w, Done (conclude errors (VArr result)))
  | S fuel' =>
      if (i <? length items)%nat then
        let batch := slice i (i + concurrency) items in
        let '(w1, tasks) := start_batch i batch w in
        (w1, Async.await_run (Async.promise_all (List.map (Async.stamp 0) tasks))
               (fun done w' =>
                  let '(result', errors') :=
                    fold_left record_item (Async.by_completion done) (result, errors) in
                  array_loop fuel' items (i + concurrency) result' errors' w'))
      else (w, Done (conclude errors (VArr result)))
  end.

End Array.

(** [options.batchConcurrency || 4] *)
Definition batch_size (batchConcurrency : option nat) : nat :=
  match batchConcurrency with
  | Some (S n) => S n
  | _ => 4%nat
  end.

Definition array (itemSchema : ZetSchema) (batchConcurrency : option nat) : ZetSchema :=
  new_ZetSchema
    (fun v _ _ w =>
       match v with
       | VArr items =>
           let '(w1, p) :=
             array_loop itemSchema (batch_size batchConcurrency)
               (length items) items 0 [] [] w in
           (w1, Promise p)
       | _ => (w, Promise (Done (Failure [("value", "Expected an array")])))
       end)
    None None None.

Section Object.

Variable shape : JsObj.t ZetSchema.

(** [Object.entries(shape).map(async ([key, schema]) => ...)] up to each
    callback's first suspension. *)
Fixpoint start_fields (fields : JsObj.t ZetSchema) (v : value) (w : world)
    : world * list (run (String.string * ValidationResult)) :=
  match fields with
  | [] => (w, [])
  | (key, schema) :: rest =>
      let '(w1, r) := safeParse schema (get_prop v key) v "default" None w in
      let '(w2, ps) := start_fields rest v w1 in
      (w2, Async.await r (fun fieldResult w' => (w', Done (key, fieldResult))) :: ps)
  end.

Definition record_field (acc : JsObj.t value * JsObj.t String.string)
    (done : String.string * ValidationResult) : JsObj.t value * JsObj.t String.string :=
  match snd done with
  | Failure errs => (fst acc, JsObj.assign (snd acc) errs)
  | Success data => (JsObj.set (fst done) data (fst acc), snd acc)
  end.

(** The cross-field rule, asked only when no field failed. *)
Definition apply_rule (rule : option (value -> option String.string))
    (result : JsObj.t value) (errors : JsObj.t String.string) : JsObj.t String.string :=
  match rule with
  | Some check =>
      if (length (JsObj.keys errors) =? 0)%nat then
        match check (VObj result) with
        | Some ruleResult => JsObj.set "form" ruleResult errors
        | None => errors
        end
      else errors
  | None => errors
  end.

(** The validator of the node [object(shape)] builds; [rule] is the
    value, when the validator runs, of the [formRule] property of that
    very node ([instance.formRule]): undefined as created, the rule once
    [formRule(instance, rule)] has set it.  A rule set on another node,
    a derived one included, is not read. *)
Definition object_validator (rule : option (value -> option String.string)) : validator_fn :=
  fun v _ _ w =>
    if negb (is_object v) then
      (w, Promise (Done (Failure [("value", "Expected an object")])))
    else
      let '(w1, tasks) := start_fields (JsObj.entries shape) v w in
      (w1, Promise (Async.await_run
             (Async.promise_all (List.map (Async.stamp 0) tasks))
             (fun done w' =>
                let '(result, errors) :=
                  fold_left record_field (Async.by_completion done) ([], []) in
                let errors' := apply_rule rule result errors in
                (w', Done (conclude errors' (VObj result)))))).

End Object.

(** [object(shape)]: the node as created, [formRule] undefined. *)
Definition object (shape : JsObj.t ZetSchema) : ZetSchema :=
  new_ZetSchema (object_validator shape None) None None None.

Section Image.

Variable load_image : File -> world -> world * run (Z * Z).

Definition image : ZetSchema :=
  dimensions load_image
    (maxSizeMB (type file ["image/jpeg"; "image/png"] None) 5 None)
    (mkBounds (Some 100) None (Some 100) None) None.

End Image.

Definition string : ZetSchema :=
  new_ZetSchema
    (fun v _ _ w =>
       match v with
       | VStr _ => (w, Plain (Success v))
       | _ => (w, Plain (Failure [("value", "Expected a string")]))
       end)
    None None None.

End primitives.

(** ** The refinement methods, by name *)

Section RefinementMethods.

Variable load_image : File -> world -> world * run (Z * Z).
Variable load_media : bool -> File -> world -> world * run Z.
Variable Quality : Type.
Variable canvas_to_blob : File -> Z * Z -> Quality -> world -> world * run (nat * Z).

(** The refinement methods of a node, with their arguments. *)
Inductive refinement :=
| RType (allowedTypes : list string) (message : option string)
| RMaxSizeMB (maxMB : Z) (message : option string)
| RDimensions (b : bounds) (message : option string)
| RMaxDuration (seconds : Z) (message : option string)
| RNamePattern (regex_test : string -> bool) (message : option string)
| RExtension (extensions : list string) (message : option string)
| RCompress (maxSize : Z) (quality : Quality) (message : option string)
| RServerValidate (check : File -> (Z -> world -> world) -> world -> world * run bool)
    (message : option string)
| RMetadata (check : Z * Z -> bool) (message : option string)
| RQuery (mutationFn : value -> world -> world * run bool) (errorMessage : string)
| RAiValidate (check : File -> world -> world * run bool) (message : option string).

Definition refine (r : refinement) (this : ZetSchema) : ZetSchema :=
  match r with
  | RType allowedTypes message => type this allowedTypes message
  | RMaxSizeMB maxMB message => maxSizeMB this maxMB message
  | RDimensions b message => dimensions load_image this b message
  | RMaxDuration seconds message => maxDuration load_media this seconds message
  | RNamePattern regex_test message => namePattern this regex_test message
  | RExtension extensions message => extension this extensions message
  | RCompress maxSize quality message =>
      compress load_image Quality canvas_to_blob this maxSize quality message
  | RServerValidate check message => serverValidate this check message
  | RMetadata check message => metadata load_image this check message
  | RQuery mutationFn errorMessage => query this mutationFn errorMessage
  | RAiValidate check message => aiValidate this check message
  end.

(** The parent context a refinement evaluates its base node with: only
    [serverValidate] hands its own on. *)
Definition base_parent (r : refinement) (parent : value) : value :=
  match r with
  | RServerValidate _ _ => parent
  | _ => VUndefined
  end.

End RefinementMethods.

(** ** Nodes as objects: what a method call does to the receiver *)

Section NodeObjects.

Variable load_image : File -> world -> world * run (Z * Z).
Variable load_media : bool -> File -> world -> world * run Z.
Variable Quality : Type.
Variable canvas_to_blob : File -> Z * Z -> Quality -> world -> world * run (nat * Z).

(** The node objects by address, and the number of [Map]s created. *)
Record heap := mkHeap {
  objects : list ZetSchema;
  maps : nat
}.

(** [new ZetSchema(...)] *)
Definition alloc (n : ZetSchema) (h : heap) : nat * heap :=
  (length (objects h), mkHeap (objects h ++ [n])%list (maps h)).

(** The methods that end in [return new ZetSchema(...)]. *)
Inductive derivation :=
| DDescribe (d : string)
| DSetTransform (fn : value -> value)
| DOptional
| DExtend
| DSetCache
| DWhen (condition : value -> bool) (then_branch otherwise : ZetSchema -> ZetSchema)
| DRefine (r : refinement Quality).

Definition call (m : derivation) (this : nat) (h : heap) : option (nat * heap) :=
  match objects h !! this with
  | None => None
  | Some n =>
      Some (match m with
            | DDescribe d => alloc (describe n d) h
            | DSetTransform fn => alloc (setTransform n fn) h
            | DOptional => alloc (optional n) h
            | DExtend => alloc (extend n) h
            | DSetCache => alloc (setCache n (maps h)) (mkHeap (objects h) (S (maps h)))
            | DWhen condition then_branch otherwise =>
                alloc (when n condition then_branch otherwise) h
            | DRefine r => alloc (refine load_image load_media Quality canvas_to_blob r n) h
            end)
  end.

(** [this.stages[name] = fn(this).validator; return this;] *)
Definition stage (name : string) (fn : nat -> heap -> option (nat * heap))
    (this : nat) (h : heap) : option (nat * heap) :=
  match fn this h with
  | None => None
  | Some (built, h1) =>
      match objects h1 !! built, objects h1 !! this with
      | Some b, Some n =>
          Some (this,
                mkHeap (<[this := mkSchema (validator n) (description n) (transformFn n)
                                    (cacheMap n) (<[name := validator b]> (stages n))]>
                          (objects h1))
                       (maps h1))
      | _, _ => None
      end
  end.

End NodeObjects.

(** Writing a list of entries one after the other. *)
Definition write_all {A : Type} (l : list (string * A)) (o : JsObj.t A) : JsObj.t A :=
  fold_left (fun acc e => JsObj.set (fst e) (snd e) acc) l o.

(** The entry the claim speaks of: the first one written. *)
Definition first_inserted (errors : JsObj.t string) : string :=
  match errors with
  | (_, m) :: _ => m
  | [] => EmptyString
  end.

(** The outcomes of the declared fields in one evaluation of the record
    node, in the order in which the fields complete. *)
Definition field_outcomes (shape : JsObj.t ZetSchema) (v : value) (w : world)
    : list (string * ValidationResult) :=
  let '(w1, tasks) := primitives.start_fields (JsObj.entries shape) v w in
  Async.by_completion
    (snd (Async.finish (Async.all (List.map (Async.stamp 0) tasks)) w1)).

(** The error entries the failing fields report, in that order. *)
Definition reported (outs : list (string * ValidationResult)) : list (string * string) :=
  flat_map (fun o => match snd o with
                     | Failure errs => JsObj.entries errs
                     | Success _ => []
                     end) outs.

(** [settles_in Q p]: however the world evolves, [p] settles with a
    value that satisfies [Q]. *)
Fixpoint settles_in {A : Type} (Q : A -> Prop) (p : run A) : Prop :=
  match p with
  | Done a => Q a
  | Pending k => forall w, settles_in Q (snd (k w))
  end.


(** ** Nodes and candidates of the examples *)

(** A call-counting stub: each run of the validator leaves a [Called]
    event in the trace. *)
Definition counting_stub : ZetSchema :=
  new_ZetSchema (fun v _ _ w => (emit (Called "stub" v) w, Plain (Success v)))
    None None None.

(** Collaborators that settle at once, for closed examples. *)
Definition instant_image (f : File) (w : world) : world * run (Z * Z) := (w, Done (0, 0)).
Definition instant_media (video : bool) (f : File) (w : world) : world * run Z := (w, Done 0).
Definition instant_canvas (f : File) (size : Z * Z) (q : unit) (w : world)
    : world * run (nat * Z) := (w, Done (0%nat, 0)).

(** Two file fields described as [x] and [0], both of a type that is not
    allowed: the error map is written [x] first, [0] second, and the
    message thrown is the one of [0]. *)
Definition two_described_files : ZetSchema :=
  primitives.object
    [("a", type (describe primitives.file "x") ["image/png"] None);
     ("b", type (describe primitives.file "0") ["image/png"] None)].

Definition two_text_files : value :=
  VObj [("a", VFile (mkFile 1 "a.txt" "text/plain" 1));
        ("b", VFile (mkFile 2 "b.txt" "text/plain" 1))].

(** ** The progress callback ([src/useZetForm.ts]) *)

Module useZetForm.

(** [setUploadProgress(prev => ({ ...prev, [field]: progress }))], kept
    as an event of the trace. *)
Definition onProgress : on_progress :=
  fun field progress => emit (Progress field progress).

(** The hook's [uploadProgress] state after the events of a trace. *)
Definition uploadProgress (w : world) : JsObj.t Z :=
  fold_left (fun acc e =>
               match e with
               | Progress field progress => JsObj.set field progress acc
               | Called _ _ => acc
               end) (trace w) [].

(** [validate(data, stage)], up to the outcome of the evaluation. *)
Definition validate (schemaInstance : ZetSchema) (data : value) (stage : string)
    (w : world) : world * ValidationResult :=
  settle (safeParse schemaInstance data data stage (Some onProgress) w).

End useZetForm.

(** A server check that reports 50 percent and then accepts. *)
Definition reporting_check (f : File) (report : Z -> world -> world) (w : world)
    : world * run bool :=
  (report 50 w, Pending (fun w' => (w', Done true))).

Definition avatar_form : ZetSchema :=
  primitives.object
    [("avatar", serverValidate (describe primitives.file "avatar") reporting_check None)].

Definition avatar_data : value :=
  VObj [("avatar", VFile (mkFile 1 "me.png" "image/png" 1000))].

(** [parent.kind === "premium"] and a node that fails with the name of
    the branch that ran. *)
Definition is_premium (parent : value) : bool :=
  match primitives.get_prop parent "kind" with
  | VStr k => String.eqb k "premium"
  | _ => false
  end.

Definition branch_marker : ZetSchema :=
  when primitives.file is_premium
    (fun s => type s [] (Some "then"))
    (fun s => type s [] (Some "otherwise")).


Definition name_age_schema : ZetSchema :=
  primitives.object [("name", primitives.string); ("age", primitives.string)].

Definition name_age_candidate : value :=
  VObj [("name", VNum 123); ("age", VStr "5")].

Definition nested_letters : value :=
  VArr [VArr [VStr "a"; VStr "b"; VStr "c"; VStr "d"; VStr "e"]; VArr [VStr "f"]].

(** ** Definitions for the further properties *)

Section DerivedNode.

Variable load_image : File -> world -> world * run (Z * Z).
Variable load_media : bool -> File -> world -> world * run Z.
Variable Quality : Type.
Variable canvas_to_blob : File -> Z * Z -> Quality -> world -> world * run (nat * Z).

(** The node a derivation method makes of the receiver [n]; [fresh] is
    the identity of the [Map] that [setCache] creates. *)
Definition derive (m : derivation Quality) (n : ZetSchema) (fresh : nat) : ZetSchema :=
  match m with
  | DDescribe _ d => describe n d
  | DSetTransform _ fn => setTransform n fn
  | DOptional _ => optional n
  | DExtend _ => extend n
  | DSetCache _ => setCache n fresh
  | DWhen _ condition then_branch otherwise => when n condition then_branch otherwise
  | DRefine _ r => refine load_image load_media Quality canvas_to_blob r n
  end.

End DerivedNode.


(** The outcomes of the elements, numbered from [i] on. *)
Fixpoint outcomes_from (f : value -> ValidationResult) (i : nat) (items : list value)
    : list (nat * ValidationResult) :=
  match items with
  | [] => []
  | x :: rest => (i, f x) :: outcomes_from f (S i) rest
  end.

(** A task that settles after one generation and leaves the world. *)
Definition one_tick {A : Type} (x : A) : run A := Pending (fun w => (w, Done x)).

(** The MIME type [extension] allows for one extension as written. *)
Definition extension_type (ext : string) : option string :=
  match mimeMap (toLowerCase ext) with
  | Some m => Some m
  | None => if inherited_name (toLowerCase ext) then None else Some ("application/" ++ ext)
  end.

(** A server check that reports the given progress values, then gives
    its verdict. *)
Definition check_reporting (steps : list Z) (verdict : bool) (f : File)
    (report : Z -> world -> world) (w : world) : world * run bool :=
  (fold_left (fun w0 p => report p w0) steps w, one_tick verdict).

(** The outcome of each declared field, in the order [Object.entries]
    lists the shape. *)
Definition declared_outcomes (shape : JsObj.t ZetSchema)
    (g : string -> value -> ValidationResult) (v : value)
    : list (string * ValidationResult) :=
  List.map (fun e => (fst e, g (fst e) (primitives.get_prop v (fst e))))
    (JsObj.entries shape).

(** A key of the form [index.key] for an index of the input. *)
Definition indexed_key (items : list value) (k : string) : Prop :=
  exists (i : nat) (key : string), (i < length items)%nat /\ k = pretty i ++ "." ++ key.


Definition media_of_length (seconds : Z) (video : bool) (f : File) (w : world)
    : world * run Z :=
  (w, Pending (fun w' => (w', Done seconds))).


(** What [string()] answers, as a function of the candidate. *)
Definition string_outcome (v : value) : ValidationResult :=
  match v with
  | VStr _ => Success v
  | _ => Failure [("value", "Expected a string")]
  end.

(** * Properties *)

(** ** Promises *)

Section RunInduction.
Context {A : Type} (P : run A -> Prop).
Hypothesis P_done : forall a, P (Done a).
Hypothesis P_pending : forall k, (forall w, P (snd (k w))) -> P (Pending k).

Fixpoint run_induction (p : run A) : P p :=
  match p with
  | Done a => P_done a
  | Pending k => P_pending k (fun w => run_induction (snd (k w)))
  end.

End RunInduction.

Lemma finish_await_run {A B : Type} (p : run A) (k : A -> world -> world * run B) w :
  Async.finish (Async.await_run p k) w =
  let '(w1, a) := Async.finish p w in
  let '(w2, q) := k a w1 in
  Async.finish q w2.
Proof.
  revert w. induction p as [a | step IH] using run_induction; intros w; simpl.
  - reflexivity.
  - specialize (IH w). destruct (step w) as [w' p']. simpl in *. apply IH.
Qed.

Lemma finish_await {A B : Type} (r : ret A) (k : A -> world -> world * run B) w :
  Async.finish (Async.await r k) w =
  let '(w1, a) := settle (w, r) in
  let '(w2, q) := k a w1 in
  Async.finish q w2.
Proof.
  destruct r as [a | p]; simpl.
  - reflexivity.
  - apply finish_await_run.
Qed.

Lemma finish_then {A B : Type} (p : run A) (f : A -> world -> world * B) w :
  Async.finish (Async.then_ p f) w =
  let '(w1, a) := Async.finish p w in f a w1.
Proof.
  unfold Async.then_. rewrite finish_await_run.
  destruct (Async.finish p w) as [w1 a]. destruct (f a w1) as [w2 b]. reflexivity.
Qed.

(** ** Dictionaries *)

Section JsObjFacts.
Context {A : Type}.

Lemma get_put (k k' : string) (v : A) (o : JsObj.t A) :
  JsObj.get k (JsObj.put k' v o) = if String.eqb k k' then Some v else JsObj.get k o.
Proof.
  induction o as [|[k0 v0] o IH]; simpl.
  - destruct (String.eqb k k'); reflexivity.
  - destruct (String.eqb k' k0) eqn:E0; simpl.
    + apply String.eqb_eq in E0. subst k0.
      destruct (String.eqb k k'); reflexivity.
    + destruct (String.eqb k k0) eqn:E1.
      * apply String.eqb_eq in E1. subst k0.
        rewrite String.eqb_sym, E0. reflexivity.
      * exact IH.
Qed.

Lemma get_set (k k' : string) (v : A) (o : JsObj.t A) :
  JsObj.get k (JsObj.set k' v o) =
  if String.eqb k' "__proto__" then JsObj.get k o
  else if String.eqb k k' then Some v else JsObj.get k o.
Proof.
  unfold JsObj.set. destruct (String.eqb k' "__proto__"); [reflexivity|apply get_put].
Qed.

Lemma get_write_all (k : string) (l : list (string * A)) (o : JsObj.t A) :
  JsObj.get k (write_all l o) =
  if String.eqb k "__proto__" then JsObj.get k o
  else match JsObj.get k (rev l) with
       | Some v => Some v
       | None => JsObj.get k o
       end.
Proof.
  revert o. induction l as [|[k' v] l IH]; intros o; simpl.
  - destruct (String.eqb k "__proto__"); reflexivity.
  - unfold write_all in *. simpl. rewrite IH. clear IH.
    destruct (String.eqb k "__proto__") eqn:Ep.
    + rewrite get_set. destruct (String.eqb k' "__proto__") eqn:Ep'; [reflexivity|].
      destruct (String.eqb k k') eqn:E; [|reflexivity].
      apply String.eqb_eq in E. congruence.
    + assert (Hrev : forall (l1 : list (string * A)),
                 JsObj.get k (l1 ++ [(k', v)])%list =
                 match JsObj.get k l1 with
                 | Some x => Some x
                 | None => if String.eqb k k' then Some v else None
                 end).
      { induction l1 as [|[k1 v1] l1 IH1]; simpl; [reflexivity|].
        destruct (String.eqb k k1); [reflexivity|exact IH1]. }
      rewrite Hrev. destruct (JsObj.get k (rev l)); [reflexivity|].
      rewrite get_set. destruct (String.eqb k k') eqn:E.
      * apply String.eqb_eq in E. subst k'. rewrite Ep. reflexivity.
      * destruct (String.eqb k' "__proto__"); reflexivity.
Qed.

Lemma get_of_In (k : string) (v : A) (l : list (string * A)) :
  In (k, v) l -> exists v', JsObj.get k l = Some v'.
Proof.
  induction l as [|[k0 v0] l IH]; simpl; [tauto|].
  intros [Heq | Hin].
  - inversion Heq; subst. rewrite String.eqb_refl. eauto.
  - destruct (String.eqb k k0); eauto.
Qed.

Lemma insert_index_length (e : N * (string * A)) l :
  length (JsObj.insert_index e l) = S (length l).
Proof.
  induction l as [|e' l IH]; simpl; [reflexivity|].
  destruct (fst e <? fst e')%N; simpl; [reflexivity|]. rewrite IH. reflexivity.
Qed.

Lemma entries_length (o : JsObj.t A) : length (JsObj.entries o) = length o.
Proof.
  unfold JsObj.entries. rewrite length_app, length_map.
  assert (Hsort : forall l : list (N * (string * A)),
             length (fold_right JsObj.insert_index [] l) = length l).
  { induction l as [|e l IH]; simpl; [reflexivity|].
    rewrite insert_index_length, IH. reflexivity. }
  rewrite Hsort. unfold JsObj.index_entries, JsObj.name_entries, omap.
  induction o as [|e o IH]; simpl; [reflexivity|].
  destruct (JsObj.array_index (fst e)); simpl in *; lia.
Qed.

Lemma keys_nonempty (k : string) (v : A) (o : JsObj.t A) :
  JsObj.get k o = Some v -> (0 <? length (JsObj.keys o))%nat = true.
Proof.
  intros Hget. unfold JsObj.keys. rewrite length_map, entries_length.
  destruct o; [discriminate|]. reflexivity.
Qed.

End JsObjFacts.

(** A freshly constructed node has its validator at every stage. *)
Lemma stage_fn_new (n : ZetSchema) (stage : string) :
  (exists v d t c, n = new_ZetSchema v d t c) ->
  stage_fn n stage = validator n.
Proof.
  intros (v & d & t & c & ->). unfold stage_fn, new_ZetSchema. simpl.
  destruct (decide (stage = "default")) as [-> | Hne].
  - rewrite lookup_singleton_eq. reflexivity.
  - rewrite lookup_singleton_ne by congruence. reflexivity.
Qed.

(** ** Refinements *)

Section Refinements.

Variable load_image : File -> world -> world * run (Z * Z).
Variable load_media : bool -> File -> world -> world * run Z.
Variable Quality : Type.
Variable canvas_to_blob : File -> Z * Z -> Quality -> world -> world * run (nat * Z).


End Refinements.



(** C7. A size ceiling of [L] megabytes over a base node that yields a
    file: a file of exactly [L * 1024 * 1024] bytes passes through
    unchanged, and one of [L * 1024 * 1024 + 1] bytes is rejected with
    the single entry keyed by the node's description.  For [L = 5] the
    two sizes are 5242880 and 5242881. *)
Theorem maxSizeMB_boundary :
  forall (this : ZetSchema) (L : Z) (message : option string) (v parent : value)
         (opts : option on_progress) (w w' : world) (f : File),
    settle (validator this v VUndefined None w) = (w', Success (VFile f)) ->
    (f_size f = L * 1024 * 1024 ->
       settle (validator (maxSizeMB this L message) v parent opts w)
       = (w', Success (VFile f)))
    /\ (f_size f = L * 1024 * 1024 + 1 ->
       settle (validator (maxSizeMB this L message) v parent opts w)
       = (w', Failure [(description (maxSizeMB this L message),
                        or_default message
                          (description this ++ " must not exceed " ++ pretty L ++ "MB"))]))
    /\ MB 5 = 5242880.
Proof.
  intros this L message v parent opts w w' f Hbase.
  assert (Hrun : forall b,
             (MB L <? f_size f) = b ->
             settle (validator (maxSizeMB this L message) v parent opts w)
             = (w', if b then
                      Failure [(description this,
                                or_default message
                                  (description this ++ " must not exceed "
                                   ++ pretty L ++ "MB"))]
                    else Success (VFile f))).
  { intros b Hb. simpl.
    destruct (validator this v VUndefined None w) as [w1 res] eqn:Hv. simpl.
    rewrite finish_await, Hbase, Hb. destruct b; reflexivity. }
  split; [|split].
  - intros Hsize. apply (Hrun false). unfold MB. apply Z.ltb_ge. lia.
  - intros Hsize. apply (Hrun true). unfold MB. apply Z.ltb_lt. lia.
  - reflexivity.
Qed.

(** [file().maxSizeMB(5)] on files of 5242880 and of 5242881 bytes. *)
Lemma maxSizeMB_boundary_witness :
  settle (validator (maxSizeMB primitives.file 5 None)
            (VFile (mkFile 1 "a.bin" "application/octet-stream" 5242880))
            VUndefined None (mkWorld ∅ []))
  = (mkWorld ∅ [], Success (VFile (mkFile 1 "a.bin" "application/octet-stream" 5242880)))
  /\ settle (validator (maxSizeMB primitives.file 5 None)
            (VFile (mkFile 2 "b.bin" "application/octet-stream" 5242881))
            VUndefined None (mkWorld ∅ []))
  = (mkWorld ∅ [], Failure [("value", "value must not exceed 5MB")]).
Proof.
  split.
  - apply (maxSizeMB_boundary primitives.file 5 None
             (VFile (mkFile 1 "a.bin" "application/octet-stream" 5242880))
             VUndefined None (mkWorld ∅ []) (mkWorld ∅ [])
             (mkFile 1 "a.bin" "application/octet-stream" 5242880));
      reflexivity.
  - apply (maxSizeMB_boundary primitives.file 5 None
             (VFile (mkFile 2 "b.bin" "application/octet-stream" 5242881))
             VUndefined None (mkWorld ∅ []) (mkWorld ∅ [])
             (mkFile 2 "b.bin" "application/octet-stream" 5242881));
      reflexivity.
Defined.

(** ** Conditional dispatch *)

(** C8. The evaluation function of a conditional node is, call by call,
    the evaluation function of exactly one branch: of the node the
    [then] builder makes of the base node when the predicate holds of the
    parent context, of the node the [otherwise] builder makes of it when
    it does not; the predicate is asked about the empty object when no
    parent context is supplied.  With the predicate
    [parent.kind === "premium"] and branches that fail under their own
    name, a premium parent gets the error of [then], a basic parent and
    an absent parent the error of [otherwise]. *)
Theorem when_dispatch :
  (forall (this : ZetSchema) (condition : value -> bool)
          (then_branch otherwise : ZetSchema -> ZetSchema)
          (v parent : value) (opts : option on_progress) (w : world),
      validator (when this condition then_branch otherwise) v parent opts w
      = (if condition (or_empty parent)
         then validator (then_branch this) v parent None w
         else validator (otherwise this) v parent None w))
  /\ or_empty VUndefined = VObj []
  /\ (let upload := VFile (mkFile 1 "a.png" "image/png" 10) in
      let run_with parent :=
        snd (settle (validator branch_marker upload parent None (mkWorld ∅ []))) in
      run_with (VObj [("kind", VStr "premium")]) = Failure [("value", "then")]
      /\ run_with (VObj [("kind", VStr "basic")]) = Failure [("value", "otherwise")]
      /\ run_with VUndefined = Failure [("value", "otherwise")]).
Proof.
  split; [|split; [reflexivity|]].
  - intros. simpl. destruct (condition (or_empty parent)); reflexivity.
  - repeat split; reflexivity.
Qed.

(** ** The cache *)

Lemma cache_get_set (c : nat) (key : string) (r : ValidationResult) (w : world) :
  cache_get c key (cache_set c key r w) = Some r.
Proof.
  unfold cache_get, cache_set. simpl.
  rewrite lookup_insert_eq. apply lookup_insert_eq.
Qed.

(** Once an evaluation under [key] has settled, the outcome it gave is
    the cache's entry for [key]. *)
Lemma safeParse_fills_cache (this : ZetSchema) (c : nat) (v parent : value)
    (stage : string) (extra : option on_progress) (w w1 : world) (r : ValidationResult) :
  cacheMap this = Some c ->
  settle (safeParse this v parent stage extra w) = (w1, r) ->
  cache_get c (cache_key stage v) w1 = Some r.
Proof.
  intros Hc Hrun. unfold safeParse in Hrun. rewrite Hc in Hrun.
  destruct (cache_get c (cache_key stage v) w) as [cached|] eqn:Hget.
  - simpl in Hrun. congruence.
  - destruct (stage_fn this stage v parent None w) as [w' [res | p]].
    + simpl in Hrun. unfold store_result in Hrun. rewrite Hc in Hrun.
      inversion Hrun; subst. apply cache_get_set.
    + simpl in Hrun. rewrite finish_then in Hrun.
      destruct (Async.finish p w') as [w2 res].
      unfold store_result in Hrun. rewrite Hc in Hrun.
      inversion Hrun; subst. apply cache_get_set.
Qed.

Lemma safeParse_hit (this : ZetSchema) (c : nat) (v parent : value)
    (stage : string) (extra : option on_progress) (w : world) (r : ValidationResult) :
  cacheMap this = Some c ->
  cache_get c (cache_key stage v) w = Some r ->
  safeParse this v parent stage extra w = (w, Plain r).
Proof.
  intros Hc Hget. unfold safeParse. rewrite Hc, Hget. reflexivity.
Qed.

(** C2. With a cache on the node, once a safe evaluation of a candidate
    at a stage has settled, a second safe evaluation of the same
    candidate at the same stage hands back the same outcome, as a plain
    value, and leaves the world as it was: no validator, transform or
    external check has run again. *)
Theorem safeParse_twice :
  forall (this : ZetSchema) (c : nat) (v parent parent' : value) (stage : string)
         (extra extra' : option on_progress) (w w1 : world) (r : ValidationResult),
    cacheMap this = Some c ->
    settle (safeParse this v parent stage extra w) = (w1, r) ->
    safeParse this v parent' stage extra' w1 = (w1, Plain r).
Proof.
  intros this c v parent parent' stage extra extra' w w1 r Hc Hrun.
  apply (safeParse_hit this c); [exact Hc|].
  exact (safeParse_fills_cache this c v parent stage extra w w1 r Hc Hrun).
Qed.

(** C10. The cache key is the stage name, a colon and the JSON text of
    the candidate.  Two candidates with the same JSON text share it:
    after the first has been evaluated, the safe evaluation of the second
    hands back the first one's outcome and evaluates nothing. *)
Theorem safeParse_key_collision :
  forall (this : ZetSchema) (c : nat) (v1 v2 parent1 parent2 : value) (stage : string)
         (w w1 : world) (r : ValidationResult),
    cacheMap this = Some c ->
    JSON.stringify v1 = JSON.stringify v2 ->
    settle (safeParse this v1 parent1 stage None w) = (w1, r) ->
    cache_key stage v2 = stage ++ ":" ++ JSON.stringify v1
    /\ safeParse this v2 parent2 stage None w1 = (w1, Plain r).
Proof.
  intros this c v1 v2 parent1 parent2 stage w w1 r Hc Hjson Hrun.
  split.
  - unfold cache_key. rewrite Hjson. reflexivity.
  - apply (safeParse_hit this c); [exact Hc|].
    replace (cache_key stage v2) with (cache_key stage v1)
      by (unfold cache_key; rewrite Hjson; reflexivity).
    exact (safeParse_fills_cache this c v1 parent1 stage None w w1 r Hc Hrun).
Qed.

Lemma safeParse_twice_witness :
  let node := setCache counting_stub 0 in
  let first := settle (safeParse node (VStr "a") VUndefined "default" None (mkWorld ∅ [])) in
  safeParse node (VStr "a") VUndefined "default" None (fst first)
  = (fst first, Plain (snd first))
  /\ snd first = Success (VStr "a")
  /\ trace (fst first) = [Called "stub" (VStr "a")].
Proof.
  intros node first. split; [|split; reflexivity].
  apply (safeParse_twice node 0 (VStr "a") VUndefined VUndefined "default" None None
           (mkWorld ∅ []) (fst first) (snd first)).
  - reflexivity.
  - vm_compute. reflexivity.
Defined.

(** Two different files, the first one too large: the second, small
    one is handed the first one's rejection. *)
Lemma safeParse_key_collision_witness :
  let node := setCache (maxSizeMB primitives.file 1 None) 0 in
  let big := VFile (mkFile 1 "big.bin" "application/octet-stream" 2000000) in
  let small := VFile (mkFile 2 "small.bin" "application/octet-stream" 10) in
  let first := settle (safeParse node big VUndefined "default" None (mkWorld ∅ [])) in
  big <> small
  /\ snd first = Failure [("value", "value must not exceed 1MB")]
  /\ safeParse node small VUndefined "default" None (fst first)
     = (fst first, Plain (snd first)).
Proof.
  intros node big small first. split; [discriminate|]. split; [reflexivity|].
  apply (safeParse_key_collision node 0 big small VUndefined VUndefined "default"
           (mkWorld ∅ []) (fst first) (snd first)).
  - reflexivity.
  - reflexivity.
  - vm_compute. reflexivity.
Defined.

(** ** The throwing entry point *)

Lemma entries_without_index {A : Type} (o : JsObj.t A) :
  Forall (fun e => JsObj.array_index (fst e) = None) o ->
  JsObj.entries o = o.
Proof.
  intros Hall. unfold JsObj.entries.
  assert (Hboth : JsObj.index_entries o = [] /\ JsObj.name_entries o = o).
  { unfold JsObj.index_entries, JsObj.name_entries.
    induction Hall as [|e o' He _ [IHi IHn]]; simpl.
    - split; reflexivity.
    - rewrite He. split; [exact IHi | f_equal; exact IHn]. }
  destruct Hboth as [Hidx Hname].
  rewrite Hidx, Hname. reflexivity.
Qed.

(** C6, as the code has it. [parse] evaluates the stage's validator; on
    success it returns the value, transformed when the node has a
    transform; on failure it throws an error whose message is the first
    value of the error map in property enumeration order (array index
    keys in ascending order first, then the other keys in the order they
    were written), the empty message for an empty map.  When no key of
    the error map is an array index, that is the first entry written. *)
Theorem parse_outcome :
  forall (this : ZetSchema) (v parent : value) (stage : string) (w w1 : world)
         (res : ValidationResult),
    settle (stage_fn this stage v parent None w) = (w1, res) ->
    settle (parse this v parent stage w)
    = (w1, match res with
           | Success d =>
               Returned (match transformFn this with Some f => f d | None => d end)
           | Failure errors =>
               Threw (match JsObj.values errors with m :: _ => m | [] => EmptyString end)
           end)
    /\ (forall errors, res = Failure errors ->
          Forall (fun e => JsObj.array_index (fst e) = None) errors ->
          settle (parse this v parent stage w) = (w1, Threw (first_inserted errors))).
Proof.
  intros this v parent stage w w1 res Hrun.
  assert (Hparse : settle (parse this v parent stage w) = (w1, parse_result this res)).
  { unfold parse. destruct (stage_fn this stage v parent None w) as [w' [r | p]].
    - simpl in *. congruence.
    - simpl in *. rewrite finish_then, Hrun. reflexivity. }
  split.
  - rewrite Hparse. destruct res; reflexivity.
  - intros errors -> Hall. rewrite Hparse. simpl. unfold first_message, JsObj.values.
    rewrite (entries_without_index errors Hall).
    destruct errors as [|[k m] rest]; reflexivity.
Qed.

Lemma parse_outcome_witness :
  settle (parse primitives.string (VNum 123) VUndefined "default" (mkWorld ∅ []))
  = (mkWorld ∅ [], Threw "Expected a string").
Proof.
  apply (parse_outcome primitives.string (VNum 123) VUndefined "default"
           (mkWorld ∅ []) (mkWorld ∅ []) (Failure [("value", "Expected a string")])).
  reflexivity.
Defined.

Lemma parse_not_first_inserted :
  exists errors message,
    settle (validator two_described_files two_text_files VUndefined None (mkWorld ∅ []))
    = (mkWorld ∅ [], Failure errors)
    /\ settle (parse two_described_files two_text_files VUndefined "default" (mkWorld ∅ []))
       = (mkWorld ∅ [], Threw message)
    /\ first_inserted errors = "x must be one of: image/png"
    /\ message = "0 must be one of: image/png"
    /\ message <> first_inserted errors.
Proof.
  exists [("x", "x must be one of: image/png"); ("0", "0 must be one of: image/png")].
  exists "0 must be one of: image/png".
  repeat split; try reflexivity. discriminate.
Qed.


(** C9, on the code. The validator [serverValidate] builds does report
    to a callback it is given; but [safeParse] calls the stage's
    validator with the candidate and the parent only, so whatever
    callback the caller hands to [safeParse] changes nothing, and the
    form hook's callback is never invoked: after validating a record
    whose field is server-checked, no progress has been recorded. *)
Theorem progress_callback_dropped :
  (forall (this : ZetSchema) (v parent : value) (stage : string)
          (cb : on_progress) (w : world),
      safeParse this v parent stage (Some cb) w = safeParse this v parent stage None w)
  /\ trace (fst (settle (validator
                           (serverValidate (describe primitives.file "avatar")
                              reporting_check None)
                           (VFile (mkFile 1 "me.png" "image/png" 1000)) VUndefined
                           (Some useZetForm.onProgress) (mkWorld ∅ []))))
     = [Progress "avatar" 50]
  /\ useZetForm.validate avatar_form avatar_data "default" (mkWorld ∅ [])
     = (mkWorld ∅ [], Success avatar_data)
  /\ useZetForm.uploadProgress
       (fst (useZetForm.validate avatar_form avatar_data "default" (mkWorld ∅ []))) = [].
Proof.
  split; [|split; [|split]]; try reflexivity.
Qed.

(** ** What a method call does to the receiver *)

Section Objects.

Variable load_image : File -> world -> world * run (Z * Z).
Variable load_media : bool -> File -> world -> world * run Z.
Variable Quality : Type.
Variable canvas_to_blob : File -> Z * Z -> Quality -> world -> world * run (nat * Z).

(** C5. A derivation method returns a node that did not exist before
    and leaves every existing node, the receiver with its evaluation
    function included, as it was.  Stage registration is the exception:
    whatever builder it is given (one that, like the derivation methods,
    leaves the existing nodes alone), it returns the receiver itself,
    whose [stages] table now maps the name to the validator of the node
    the builder made; the receiver's other fields and all other nodes
    stay as the builder left them. *)
Theorem derivation_fresh_stage_in_place :
  forall (this : nat) (h : heap) (n : ZetSchema),
    objects h !! this = Some n ->
    (forall (m : derivation Quality), exists (r : nat) (h' : heap) (n' : ZetSchema),
        call load_image load_media Quality canvas_to_blob m this h = Some (r, h')
        /\ objects h !! r = None
        /\ objects h' !! r = Some n'
        /\ r <> this
        /\ (forall l x, objects h !! l = Some x -> objects h' !! l = Some x))
    /\ (forall (name : string) (fn : nat -> heap -> option (nat * heap))
               (built : nat) (h1 : heap) (b : ZetSchema),
          fn this h = Some (built, h1) ->
          objects h1 !! built = Some b ->
          (forall l x, objects h !! l = Some x -> objects h1 !! l = Some x) ->
          exists (h' : heap),
            stage name fn this h = Some (this, h')
            /\ objects h' !! this
               = Some (mkSchema (validator n) (description n) (transformFn n) (cacheMap n)
                         (<[name := validator b]> (stages n)))
            /\ (forall l x, l <> this -> objects h1 !! l = Some x -> objects h' !! l = Some x)).
Proof.
  intros this h n Hthis.
  split.
  - intros m.
    assert (Hlt : (this < length (objects h))%nat) by (eapply lookup_lt_Some; exact Hthis).
    assert (Hcall : exists n' maps',
               call load_image load_media Quality canvas_to_blob m this h
               = Some (length (objects h), mkHeap (objects h ++ [n'])%list maps')).
    { unfold call. rewrite Hthis. destruct m; simpl; eexists; eexists; reflexivity. }
    destruct Hcall as (n' & maps' & Hm).
    exists (length (objects h)), (mkHeap (objects h ++ [n'])%list maps'), n'.
    split; [exact Hm|]. simpl. split; [|split; [|split]].
    + apply lookup_ge_None. lia.
    + rewrite lookup_app_r by lia. rewrite Nat.sub_diag. reflexivity.
    + lia.
    + intros l x Hl. rewrite lookup_app_l; [exact Hl|]. eapply lookup_lt_Some; exact Hl.
  - intros name fn built h1 b Hfn Hb Hkeep.
    pose proof (Hkeep this n Hthis) as Hn.
    unfold stage. rewrite Hfn, Hb, Hn. eexists. split; [reflexivity|]. simpl. split.
    + apply list_lookup_insert_eq. eapply lookup_lt_Some; exact Hn.
    + intros l x Hne Hl. rewrite list_lookup_insert_ne by congruence. exact Hl.
Qed.

End Objects.

(** A heap with the single node [string()]: describing it allocates a
    second node; registering a [draft] stage built by [optional()]
    rewrites the [stages] table of the node itself. *)
Lemma derivation_fresh_stage_in_place_witness :
  let h := mkHeap [primitives.string] 0 in
  let call_ := call instant_image instant_media unit instant_canvas in
  (exists r h' n',
      call_ (DDescribe unit "name") 0%nat h = Some (r, h')
      /\ objects h !! r = None
      /\ objects h' !! r = Some n'
      /\ r <> 0%nat
      /\ (forall l x, objects h !! l = Some x -> objects h' !! l = Some x))
  /\ (exists h',
        stage "draft" (call_ (DOptional unit)) 0%nat h = Some (0%nat, h')
        /\ objects h' !! 0%nat
           = Some (mkSchema (validator primitives.string) "value" None None
                     (<["draft" := validator (optional primitives.string)]>
                        (stages primitives.string)))
        /\ (forall l x, l <> 0%nat ->
              objects (mkHeap [primitives.string; optional primitives.string] 0) !! l = Some x ->
              objects h' !! l = Some x)).
Proof.
  intros h call_.
  pose proof (derivation_fresh_stage_in_place instant_image instant_media unit
                instant_canvas 0%nat h primitives.string eq_refl) as [Hnew Hstage].
  split.
  - exact (Hnew (DDescribe unit "name")).
  - apply (Hstage "draft" (call_ (DOptional unit)) 1%nat
             (mkHeap [primitives.string; optional primitives.string] 0)
             (optional primitives.string)).
    + reflexivity.
    + reflexivity.
    + intros l x Hl. destruct l as [|[|l]]; simpl in *; [exact Hl|discriminate Hl|discriminate Hl].
Defined.

(** ** The record combinator *)

Lemma finish_promise_all {A : Type} (ps : list (run A)) (w : world) :
  Async.finish (Async.promise_all ps) w = Async.finish (Async.all ps) w.
Proof.
  destruct ps as [|p ps]; [reflexivity|].
  unfold Async.promise_all. rewrite finish_then.
  destruct (Async.finish (Async.all (p :: ps)) w). reflexivity.
Qed.

Lemma record_field_errors (outs : list (string * ValidationResult))
    (result : JsObj.t value) (errors : JsObj.t string) :
  snd (fold_left primitives.record_field outs (result, errors))
  = write_all (reported outs) errors.
Proof.
  revert result errors. induction outs as [|[key r] outs IH]; intros result errors; simpl.
  - reflexivity.
  - destruct r as [d | errs]; unfold primitives.record_field at 2; simpl.
    + apply IH.
    + rewrite IH. unfold write_all. rewrite fold_left_app. reflexivity.
Qed.

Lemma object_validator_run (shape : JsObj.t ZetSchema)
    (rule : option (value -> option string)) (v parent : value)
    (opts : option on_progress) (w : world) :
  primitives.is_object v = true ->
  exists w' result,
    settle (primitives.object_validator shape rule v parent opts w)
    = (w', primitives.conclude
             (primitives.apply_rule rule result
                (write_all (reported (field_outcomes shape v w)) []))
             (VObj result)).
Proof.
  intros Hobj. unfold primitives.object_validator, field_outcomes. rewrite Hobj. simpl.
  destruct (primitives.start_fields (JsObj.entries shape) v w) as [w1 tasks]. simpl.
  rewrite finish_await_run, finish_promise_all.
  destruct (Async.finish (Async.all (List.map (Async.stamp 0) tasks)) w1) as [w2 done].
  simpl.
  destruct (fold_left primitives.record_field (Async.by_completion done) ([], []))
    as [result errors] eqn:Hfold.
  assert (Herr : errors = write_all (reported (Async.by_completion done)) []).
  { apply (f_equal snd) in Hfold. simpl in Hfold. rewrite <- Hfold.
    apply record_field_errors. }
  rewrite Herr. eauto.
Qed.

Lemma settles_in_finish {A : Type} (Q : A -> Prop) (p : run A) (w : world) :
  settles_in Q p -> Q (snd (Async.finish p w)).
Proof.
  revert w. induction p as [a | k IH] using run_induction; intros w H; simpl in *.
  - exact H.
  - specialize (H w). specialize (IH w). destruct (k w) as [w' p']. simpl in *.
    apply IH. exact H.
Qed.

Lemma settles_in_await_run {A B : Type} (Q : B -> Prop) (p : run A)
    (k : A -> world -> world * run B) :
  (forall a w, settles_in Q (snd (k a w))) -> settles_in Q (Async.await_run p k).
Proof.
  intros Hk. induction p as [a | step IH] using run_induction; simpl.
  - intros w. apply Hk.
  - intros w. specialize (IH w). destruct (step w) as [w' p']. simpl in *. exact IH.
Qed.

Lemma settles_in_stamp {A : Type} (Q : A -> Prop) (p : run A) (n : nat) :
  settles_in Q p -> settles_in (fun x => Q (snd x)) (Async.stamp n p).
Proof.
  revert n. induction p as [a | k IH] using run_induction; intros n H; simpl in *.
  - exact H.
  - intros w. specialize (H w). specialize (IH w). destruct (k w) as [w' p'].
    simpl in *. apply IH. exact H.
Qed.

Lemma settles_in_map_run {A B : Type} (Q : B -> Prop) (f : A -> B) (p : run A) :
  settles_in (fun a => Q (f a)) p -> settles_in Q (Async.map_run f p).
Proof.
  induction p as [a | k IH] using run_induction; intros H; simpl in *.
  - exact H.
  - intros w. specialize (H w). specialize (IH w). destruct (k w) as [w' p'].
    simpl in *. apply IH. exact H.
Qed.

Lemma settles_in_both {A B : Type} (Q1 : A -> Prop) (Q2 : B -> Prop)
    (p : run A) (q : run B) :
  settles_in Q1 p -> settles_in Q2 q ->
  settles_in (fun x => Q1 (fst x) /\ Q2 (snd x)) (Async.both p q).
Proof.
  revert q. induction p as [a | kp IHp] using run_induction; intros q Hp Hq.
  - simpl. apply settles_in_map_run. simpl in Hp.
    clear -Hp Hq. induction q as [b | kq IHq] using run_induction; simpl in *.
    + split; assumption.
    + intros w. specialize (Hq w). specialize (IHq w). destruct (kq w). simpl in *. auto.
  - induction q as [b | kq IHq] using run_induction.
    + simpl. intros w. simpl in Hp. specialize (Hp w).
      destruct (kp w) as [w' p'] eqn:Ekp. simpl in *.
      apply settles_in_map_run.
      clear -Hp Hq. induction p' as [a | k IH] using run_induction; simpl in *.
      * split; assumption.
      * intros w0. specialize (Hp w0). specialize (IH w0). destruct (k w0). simpl in *. auto.
    + simpl. intros w. simpl in Hp, Hq. specialize (Hp w). specialize (IHp w).
      destruct (kp w) as [w1 p'] eqn:Ekp. specialize (Hq w1).
      destruct (kq w1) as [w2 q'] eqn:Ekq. simpl in *.
      apply IHp; assumption.
Qed.

Lemma settles_in_all {A : Type} (Qs : list (A -> Prop)) (ps : list (run A)) :
  Forall2 (fun Q p => settles_in Q p) Qs ps ->
  settles_in (fun l => Forall2 (fun Q a => Q a) Qs l) (Async.all ps).
Proof.
  induction 1 as [|Q p Qs ps Hp _ IH]; simpl.
  - constructor.
  - apply settles_in_map_run.
    pose proof (settles_in_both _ _ _ _ Hp IH) as Hboth.
    revert Hboth. generalize (Async.both p (Async.all ps)). intros pq.
    induction pq as [[a l] | k IHk] using run_induction; simpl.
    + intros [Ha Hl]. constructor; assumption.
    + intros H w. specialize (H w). specialize (IHk w). destruct (k w). simpl in *. auto.
Qed.

Lemma insert_by_time_perm {A : Type} (e : nat * A) (l : list (nat * A)) :
  Permutation (Async.insert_by_time e l) (e :: l).
Proof.
  induction l as [|e' l IH]; simpl; [reflexivity|].
  destruct (fst e <=? fst e')%nat; [reflexivity|].
  rewrite IH. apply perm_swap.
Qed.

Lemma by_completion_perm {A : Type} (l : list (nat * A)) :
  Permutation (Async.by_completion l) (List.map snd l).
Proof.
  unfold Async.by_completion. apply Permutation_map.
  induction l as [|e l IH]; simpl; [reflexivity|].
  rewrite insert_by_time_perm. constructor. exact IH.
Qed.

Lemma start_fields_keys (fields : JsObj.t ZetSchema) (v : value) (w : world) :
  Forall2 (fun e p => settles_in (fun x : nat * (string * ValidationResult) =>
                                    fst (snd x) = fst e) p)
          fields
          (List.map (Async.stamp 0) (snd (primitives.start_fields fields v w))).
Proof.
  revert w. induction fields as [|[key schema] fields IH]; intros w; simpl.
  - constructor.
  - destruct (safeParse schema (primitives.get_prop v key) v "default" None w) as [w1 r].
    specialize (IH w1).
    destruct (primitives.start_fields fields v w1) as [w2 ps]. simpl in *.
    constructor; [|exact IH].
    apply (settles_in_stamp (fun x : string * ValidationResult => fst x = key)).
    destruct r as [a | p]; simpl.
    + intros w0. reflexivity.
    + apply settles_in_await_run. intros a w0. reflexivity.
Qed.

(** Every declared field gives exactly one outcome. *)
Lemma field_outcomes_keys (shape : JsObj.t ZetSchema) (v : value) (w : world) :
  Permutation (List.map fst (field_outcomes shape v w)) (JsObj.keys shape).
Proof.
  unfold field_outcomes, JsObj.keys.
  pose proof (start_fields_keys (JsObj.entries shape) v w) as Hkeys.
  destruct (primitives.start_fields (JsObj.entries shape) v w) as [w1 tasks].
  simpl in Hkeys.
  pose proof (settles_in_finish _ _ w1
                (settles_in_all
                   (List.map (fun e (x : nat * (string * ValidationResult)) =>
                                fst (snd x) = fst e) (JsObj.entries shape))
                   (List.map (Async.stamp 0) tasks)
                   ltac:(apply Forall2_fmap_l; exact Hkeys))) as Hdone.
  simpl in Hdone.
  rewrite by_completion_perm.
  apply Forall2_fmap_l in Hdone.
  revert Hdone.
  generalize (snd (Async.finish (Async.all (List.map (Async.stamp 0) tasks)) w1)).
  generalize (JsObj.entries shape).
  intros es done Hdone.
  induction Hdone as [|e x es xs Hx _ IHd]; simpl; [reflexivity|].
  rewrite Hx, IHd. reflexivity.
Qed.

(** C1, as the code has it. Every declared field gives one outcome.
    When a failing field reports an entry under a key other than
    [__proto__], the record node fails, and its error map binds exactly
    the keys the failing fields report, as the children spell them (no
    field name is put in front), each to the message of the last failing
    field to report it: the union of the failing fields' entries when
    their keys differ.  Schema [{name: text, age: text}] against
    [{name: 123, age: "5"}] gives the single entry
    [value: "Expected a string"]. *)
Theorem record_error_map :
  forall (shape : JsObj.t ZetSchema) (rule : option (value -> option string))
         (v parent : value) (opts : option on_progress) (w : world) (k m : string),
    primitives.is_object v = true ->
    In (k, m) (reported (field_outcomes shape v w)) ->
    k <> "__proto__" ->
    Permutation (List.map fst (field_outcomes shape v w)) (JsObj.keys shape)
    /\ (exists w' errors,
          settle (primitives.object_validator shape rule v parent opts w)
          = (w', Failure errors)
          /\ forall key,
               JsObj.get key errors
               = if String.eqb key "__proto__" then None
                 else JsObj.get key (rev (reported (field_outcomes shape v w))))
    /\ settle (validator name_age_schema name_age_candidate VUndefined None (mkWorld ∅ []))
       = (mkWorld ∅ [], Failure [("value", "Expected a string")]).
Proof.
  intros shape rule v parent opts w k m Hobj Hin Hk.
  split; [apply field_outcomes_keys|]. split; [|reflexivity].
  destruct (object_validator_run shape rule v parent opts w Hobj) as (w' & result & Hrun).
  set (errors := write_all (reported (field_outcomes shape v w)) []) in *.
  assert (Hget : forall key,
             JsObj.get key errors
             = if String.eqb key "__proto__" then None
               else JsObj.get key (rev (reported (field_outcomes shape v w)))).
  { intros key. unfold errors. rewrite get_write_all. simpl.
    destruct (String.eqb key "__proto__"); [reflexivity|].
    destruct (JsObj.get key (rev (reported (field_outcomes shape v w)))); reflexivity. }
  assert (Hsome : exists m', JsObj.get k errors = Some m').
  { rewrite Hget. apply String.eqb_neq in Hk. rewrite Hk.
    apply (get_of_In k m). apply in_rev. rewrite rev_involutive. exact Hin. }
  destruct Hsome as [m' Hm'].
  pose proof (keys_nonempty k m' errors Hm') as Hkeys.
  exists w', errors. split; [|exact Hget].
  rewrite Hrun. f_equal.
  assert (Hrule : primitives.apply_rule rule result errors = errors).
  { unfold primitives.apply_rule. destruct rule as [check|]; [|reflexivity].
    destruct (length (JsObj.keys errors)); [discriminate Hkeys|reflexivity]. }
  rewrite Hrule. unfold primitives.conclude. rewrite Hkeys. reflexivity.
Qed.

Lemma record_error_map_witness :
  exists w' errors,
    settle (primitives.object_validator
              [("name", primitives.string); ("age", primitives.string)] None
              name_age_candidate VUndefined None (mkWorld ∅ []))
    = (w', Failure errors)
    /\ forall key,
         JsObj.get key errors
         = if String.eqb key "__proto__" then None
           else JsObj.get key
                  (rev (reported
                          (field_outcomes
                             [("name", primitives.string); ("age", primitives.string)]
                             name_age_candidate (mkWorld ∅ [])))).
Proof.
  apply (record_error_map
           [("name", primitives.string); ("age", primitives.string)] None
           name_age_candidate VUndefined None (mkWorld ∅ [])
           "value" "Expected a string").
  - reflexivity.
  - vm_compute. left. reflexivity.
  - discriminate.
Defined.

(** The example of the claim: the entry is keyed [value], not [name]. *)
Lemma record_example_not_keyed_by_field :
  snd (settle (safeParse name_age_schema name_age_candidate VUndefined "default" None
                 (mkWorld ∅ [])))
  <> Failure [("name", "Expected a string")].
Proof.
  vm_compute. discriminate.
Qed.

(** ** The sequence combinator *)

(** The loop of [array] never runs out of the iterations it is given:
    one more changes nothing. *)
Lemma array_loop_enough_fuel (itemSchema : ZetSchema) (concurrency : nat)
    (items : list value) :
  (1 <= concurrency)%nat ->
  forall (fuel i : nat) (result : list value) (errors : JsObj.t string) (w : world),
    (length items <= i + fuel)%nat ->
    primitives.array_loop itemSchema concurrency fuel items i result errors w
    = primitives.array_loop itemSchema concurrency (S fuel) items i result errors w.
Proof.
  intros Hc. induction fuel as [|fuel IH]; intros i result errors w Hlen.
  - simpl. destruct (i <? length items)%nat eqn:Hlt; [|reflexivity].
    apply Nat.ltb_lt in Hlt. lia.
  - change (primitives.array_loop itemSchema concurrency (S fuel) items i result errors w)
      with (if (i <? length items)%nat then
              let batch := primitives.slice i (i + concurrency) items in
              let '(w1, tasks) := primitives.start_batch itemSchema i batch w in
              (w1, Async.await_run
                     (Async.promise_all (List.map (Async.stamp 0) tasks))
                     (fun done w' =>
                        let '(result', errors') :=
                          fold_left primitives.record_item (Async.by_completion done)
                            (result, errors) in
                        primitives.array_loop itemSchema concurrency fuel items
                          (i + concurrency) result' errors' w'))
            else (w, Done (primitives.conclude errors (VArr result)))).
    change (primitives.array_loop itemSchema concurrency (S (S fuel)) items i result errors w)
      with (if (i <? length items)%nat then
              let batch := primitives.slice i (i + concurrency) items in
              let '(w1, tasks) := primitives.start_batch itemSchema i batch w in
              (w1, Async.await_run
                     (Async.promise_all (List.map (Async.stamp 0) tasks))
                     (fun done w' =>
                        let '(result', errors') :=
                          fold_left primitives.record_item (Async.by_completion done)
                            (result, errors) in
                        primitives.array_loop itemSchema concurrency (S fuel) items
                          (i + concurrency) result' errors' w'))
            else (w, Done (primitives.conclude errors (VArr result)))).
    destruct (i <? length items)%nat; [|reflexivity]. cbv zeta.
    destruct (primitives.start_batch itemSchema i
                (primitives.slice i (i + concurrency) items) w) as [w1 tasks].
    f_equal. f_equal.
    apply functional_extensionality. intros done.
    apply functional_extensionality. intros w'.
    destruct (fold_left primitives.record_item (Async.by_completion done) (result, errors))
      as [result' errors'].
    apply IH. lia.
Qed.

(** C4, on the code. Each element's callback appends its value when its
    own evaluation completes.  With a sequence of sequences of text, the
    element with five entries needs two batches and the element with one
    entry needs one, so the shorter one is appended first: the validated
    sequence comes out in another order than the input.  A failing
    element gives the index-prefixed error map and no value. *)
Theorem array_result_in_completion_order :
  settle (validator (primitives.array (primitives.array primitives.string None) None)
            nested_letters VUndefined None (mkWorld ∅ []))
  = (mkWorld ∅ [],
     Success (VArr [VArr [VStr "f"];
                    VArr [VStr "a"; VStr "b"; VStr "c"; VStr "d"; VStr "e"]]))
  /\ settle (validator (primitives.array primitives.string None)
               (VArr [VStr "a"; VNum 1; VStr "c"]) VUndefined None (mkWorld ∅ []))
     = (mkWorld ∅ [], Failure [("1.value", "Expected a string")]).
Proof.
  split; reflexivity.
Qed.

(** * Further properties of the refinement methods *)

(** One step through the settled run of an asynchronous body. *)
Ltac run_step H :=
  first
    [ discriminate H
    | progress (rewrite finish_await_run in H)
    | match type of H with
      | context [if ?c then _ else _] =>
          let T := type of c in
          lazymatch T with bool => destruct c eqn:? end
      | context [match ?x with [] => _ | _ :: _ => _ end] =>
          tryif is_var x then fail else destruct x eqn:?
      | context [match ?x with (_, _) => _ end] =>
          lazymatch x with
          | context [match _ with (_, _) => _ end] => fail
          | _ => destruct x as [? ?] eqn:?
          end
      end
    | progress (simpl in H) ].

Section RefinementFacts.

Variable load_image : File -> world -> world * run (Z * Z).
Variable load_media : bool -> File -> world -> world * run Z.
Variable Quality : Type.
Variable canvas_to_blob : File -> Z * Z -> Quality -> world -> world * run (nat * Z).

Abbreviation refined r this := (refine load_image load_media Quality canvas_to_blob r this).

(** Every refinement but [query] is about files.  The refined node
    evaluates its base node on the candidate alone (only
    [serverValidate] hands the parent context on); when that evaluation
    succeeds with a value that is not a file, the refined node hands the
    success on and runs nothing. *)
Theorem refinement_passes_non_files :
  forall (r : refinement Quality) (this : ZetSchema) (v parent : value)
         (opts : option on_progress) (w w1 : world) (d : value),
    (forall m e, r <> RQuery Quality m e) ->
    (forall f, d <> VFile f) ->
    settle (validator this v (base_parent Quality r parent) None w) = (w1, Success d) ->
    settle (validator (refined r this) v parent opts w) = (w1, Success d).
Proof.
  intros r this v parent opts w w1 d Hquery Hfile Hbase.
  destruct r; simpl in *;
    try (exfalso; eapply Hquery; reflexivity);
    destruct (validator this v _ None w) as [w0 res] eqn:Hv; simpl;
    rewrite finish_await, Hbase;
    destruct d; try reflexivity; exfalso; eapply Hfile; reflexivity.
Qed.

(** When the base node, evaluated as the refined node evaluates it (on
    the candidate alone; with the parent context for [serverValidate]),
    succeeds and the refined node fails, the error map is the
    refinement's own: one entry, keyed by the description the base node
    had when the refinement was applied. *)
Theorem refinement_failure_single_entry :
  forall (r : refinement Quality) (this : ZetSchema) (v parent : value)
         (opts : option on_progress) (w w1 w2 : world) (d : value)
         (errors : JsObj.t string),
    settle (validator this v (base_parent Quality r parent) None w) = (w1, Success d) ->
    settle (validator (refined r this) v parent opts w) = (w2, Failure errors) ->
    exists message, errors = [(description this, message)].
Proof.
  intros r this v parent opts w w1 w2 d errors Hbase Hrun.
  destruct r; simpl in *;
    destruct (validator this v _ None w) as [w0 res] eqn:Hv; simpl in Hrun;
    rewrite finish_await, Hbase in Hrun;
    destruct d; simpl in Hrun.
  all: repeat run_step Hrun.
  all: inversion Hrun; subst; eauto.
Qed.

End RefinementFacts.

Lemma refinement_passes_non_files_witness :
  settle (validator (namePattern primitives.string (fun _ => false) None)
            (VStr "report") VUndefined None (mkWorld ∅ []))
  = (mkWorld ∅ [], Success (VStr "report")).
Proof.
  apply (refinement_passes_non_files instant_image instant_media unit instant_canvas
           (RNamePattern unit (fun _ => false) None) primitives.string
           (VStr "report") VUndefined None (mkWorld ∅ []) (mkWorld ∅ []) (VStr "report")).
  - discriminate.
  - discriminate.
  - reflexivity.
Defined.

Lemma refinement_failure_single_entry_witness :
  exists message, [("avatar", "too large")] = [(description (describe primitives.file "avatar"), message)].
Proof.
  apply (refinement_failure_single_entry instant_image instant_media unit instant_canvas
           (RMaxSizeMB unit 1 (Some "too large")) (describe primitives.file "avatar")
           (VFile (mkFile 1 "a.bin" "application/octet-stream" 2000000))
           VUndefined None (mkWorld ∅ []) (mkWorld ∅ []) (mkWorld ∅ [])
           (VFile (mkFile 1 "a.bin" "application/octet-stream" 2000000))).
  - reflexivity.
  - reflexivity.
Defined.



Section BrowserFacts.

Variable load_image : File -> world -> world * run (Z * Z).
Variable load_media : bool -> File -> world -> world * run Z.
Variable Quality : Type.
Variable canvas_to_blob : File -> Z * Z -> Quality -> world -> world * run (nat * Z).



(** [maxDuration]: a clip of exactly the limit passes, a longer one is
    rejected under the description; a file that is neither video nor
    audio is never probed. *)
Theorem maxDuration_boundary :
  forall (this : ZetSchema) (seconds : Z) (message : option string) (v parent : value)
         (opts : option on_progress) (w w1 : world) (f : File),
    settle (validator this v VUndefined None w) = (w1, Success (VFile f)) ->
    (startsWith (f_type f) "video/" = false -> startsWith (f_type f) "audio/" = false ->
       settle (validator (maxDuration load_media this seconds message) v parent opts w)
       = (w1, Success (VFile f)))
    /\ (forall w2 w3 loading duration,
          startsWith (f_type f) "video/" || startsWith (f_type f) "audio/" = true ->
          load_media (startsWith (f_type f) "video/") f w1 = (w2, loading) ->
          Async.finish loading w2 = (w3, duration) ->
          settle (validator (maxDuration load_media this seconds message) v parent opts w)
          = (w3, if seconds <? duration
                 then Failure [(description this,
                                or_default message
                                  (description this ++ " must not exceed "
                                   ++ pretty seconds ++ " seconds"))]
                 else Success (VFile f))).
Proof.
  intros this seconds message v parent opts w w1 f Hbase. split.
  - intros Hv Ha. simpl. destruct (validator this v VUndefined None w) as [w0 res].
    simpl. rewrite finish_await, Hbase, Hv, Ha. reflexivity.
  - intros w2 w3 loading duration Hmedia Hload Hfin. simpl.
    destruct (validator this v VUndefined None w) as [w0 res].
    simpl. rewrite finish_await, Hbase.
    assert (Hneg : negb (startsWith (f_type f) "video/")
                   && negb (startsWith (f_type f) "audio/") = false).
    { destruct (startsWith (f_type f) "video/"), (startsWith (f_type f) "audio/");
        simpl in *; congruence. }
    rewrite Hneg. simpl. rewrite Hload. rewrite finish_await_run, Hfin.
    destruct (seconds <? duration); reflexivity.
Qed.

End BrowserFacts.

(** * Further properties of the entry points and the derivations *)

(** The [image()] shortcut, link by link: a candidate that is not a file,
    a type other than JPEG or PNG, a size above 5 MB and a side below 100
    pixels are rejected in this order, each before the next is looked at;
    the image is loaded only for a file that passed type and size. *)
Theorem image_chain :
  forall (load_image : File -> world -> world * run (Z * Z))
         (v parent : value) (opts : option on_progress) (w : world),
    settle (validator (primitives.image load_image) v parent opts w)
    = match v with
      | VFile f =>
          if negb (includes ["image/jpeg"; "image/png"] (f_type f)) then
            (w, Failure [("value", "value must be one of: image/jpeg, image/png")])
          else if 5242880 <? f_size f then
            (w, Failure [("value", "value must not exceed 5MB")])
          else
            let '(w2, loading) := load_image f w in
            let '(w3, (width, height)) := Async.finish loading w2 in
            (w3, match dimension_errors (mkBounds (Some 100) None (Some 100) None)
                         width height with
                 | [] => Success (VFile f)
                 | errors =>
                     Failure [("value", "value has invalid dimensions: "
                                        ++ JSON.join ", " errors)]
                 end)
      | _ => (w, Failure [("value", "Expected a file")])
      end.
Proof.
  intros load_image v parent opts w.
  destruct v; try reflexivity.
  unfold primitives.image.
  cbn [validator dimensions maxSizeMB type new_ZetSchema primitives.file settle
       Async.await description].
  rewrite !finish_await_run. cbn [Async.finish].
  assert (Himg : negb (includes ["image/jpeg"; "image/png"] (f_type f)) = false ->
                 startsWith (f_type f) "image/" = true).
  { unfold includes. simpl. intros Htype.
    destruct (String.eqb (f_type f) "image/jpeg") eqn:E1.
    - apply String.eqb_eq in E1. rewrite E1. reflexivity.
    - destruct (String.eqb (f_type f) "image/png") eqn:E2; [|discriminate].
      apply String.eqb_eq in E2. rewrite E2. reflexivity. }
  destruct (negb (includes ["image/jpeg"; "image/png"] (f_type f))) eqn:Htype.
  - reflexivity.
  - cbn [Async.finish]. change (MB 5) with 5242880.
    destruct (5242880 <? f_size f) eqn:Hsize.
    + reflexivity.
    + cbn [Async.finish]. rewrite (Himg eq_refl). cbn [negb].
      destruct (load_image f w) as [w2 loading].
      rewrite finish_await_run.
      destruct (Async.finish loading w2) as [w3 [width height]].
      destruct (dimension_errors _ width height); reflexivity.
Qed.

(** Serializing a node and building one back from the JSON keeps the
    description and nothing else: the rebuilt node accepts every
    candidate as it is, at every stage whose name the stage table does
    not inherit, and [parse] returns it. *)
Theorem json_round_trip_forgets_validation :
  forall (this : ZetSchema) (v parent : value) (stage : string)
         (extra : option on_progress) (w : world),
    object_prototype_member stage = false ->
    let rebuilt := fromJSON (mjoin (JsObj.get "description" (toJSON this))) in
    description rebuilt = description this
    /\ safeParse rebuilt v parent stage extra w = (w, Plain (Success v))
    /\ parse rebuilt v parent stage w = (w, Plain (Returned v)).
Proof.
  intros this v parent stage extra w Hown rebuilt.
  assert (Hstage : stage_fn rebuilt stage = validator rebuilt).
  { apply stage_fn_new. unfold rebuilt, fromJSON. eexists _, _, _, _. reflexivity. }
  split; [reflexivity|]. split.
  - unfold safeParse. rewrite Hstage. reflexivity.
  - unfold parse. rewrite Hstage. reflexivity.
Qed.

(** Without a cache the two entry points agree: [parse] returns the
    value [safeParse] succeeds with and throws the first message of the
    error map [safeParse] fails with, in the same final world. *)
Theorem parse_agrees_with_safeParse :
  forall (this : ZetSchema) (v parent : value) (stage : string)
         (extra : option on_progress) (w : world),
    cacheMap this = None ->
    settle (parse this v parent stage w)
    = (let '(w1, res) := settle (safeParse this v parent stage extra w) in
       (w1, match res with
            | Success d => Returned d
            | Failure errors => Threw (first_message errors)
            end)).
Proof.
  intros this v parent stage extra w Hc.
  unfold parse, safeParse, store_result. rewrite Hc.
  destruct (stage_fn this stage v parent None w) as [w1 [res | p]]; simpl.
  - unfold parse_result, apply_transform.
    destruct res; [destruct (transformFn this)|]; reflexivity.
  - rewrite !finish_then. destruct (Async.finish p w1) as [w2 res].
    unfold parse_result, apply_transform.
    destruct res; [destruct (transformFn this)|]; reflexivity.
Qed.

(** [optional()], at a stage whose name the stage table does not
    inherit: an undefined candidate succeeds at once, the base node is
    not run, and the node's transform is still applied, to [undefined];
    any other candidate goes to the base validator, without the parent
    context. *)
Theorem optional_behaviour :
  forall (this : ZetSchema) (parent : value) (stage : string)
         (extra : option on_progress) (w : world),
    cacheMap this = None ->
    object_prototype_member stage = false ->
    safeParse (optional this) VUndefined parent stage extra w
    = (w, Plain (Success (match transformFn this with
                          | Some f => f VUndefined
                          | None => VUndefined
                          end)))
    /\ (forall v opts, v <> VUndefined ->
          validator (optional this) v parent opts w = validator this v VUndefined None w).
Proof.
  intros this parent stage extra w Hc Hown. split.
  - assert (Hstage : stage_fn (optional this) stage = validator (optional this)).
    { apply stage_fn_new. eexists _, _, _, _. reflexivity. }
    unfold safeParse, store_result. rewrite Hstage. simpl. rewrite Hc. simpl.
    unfold apply_transform. simpl. destruct (transformFn this); reflexivity.
  - intros v opts Hv. simpl. destruct v; try reflexivity. contradiction.
Qed.

Section DerivedNodes.

Variable load_image : File -> world -> world * run (Z * Z).
Variable load_media : bool -> File -> world -> world * run Z.
Variable Quality : Type.
Variable canvas_to_blob : File -> Z * Z -> Quality -> world -> world * run (nat * Z).

Abbreviation calling m this h := (call load_image load_media Quality canvas_to_blob m this h).

(** A call of a derivation method allocates the derived node right
    after the existing ones. *)
Lemma call_allocates (m : derivation Quality) (this : nat) (h : heap) (n : ZetSchema) :
  objects h !! this = Some n ->
  calling m this h
  = Some (length (objects h),
          mkHeap (objects h
                  ++ [derive load_image load_media Quality canvas_to_blob m n (maps h)])%list
                 (match m with DSetCache _ => S (maps h) | _ => maps h end)).
Proof.
  intros Hthis. unfold call. rewrite Hthis. destruct m; reflexivity.
Qed.

(** What a derivation keeps of the receiver: the cache (a new one for
    [setCache]) and, but for [describe], the description; the new node
    has its own validator at every stage. *)
Lemma call_result (m : derivation Quality) (this : nat) (h : heap) (n : ZetSchema) :
  objects h !! this = Some n ->
  exists r h' n',
    calling m this h = Some (r, h')
    /\ objects h' !! r = Some n'
    /\ cacheMap n' = match m with DSetCache _ => Some (maps h) | _ => cacheMap n end
    /\ description n' = match m with DDescribe _ d => d | _ => description n end
    /\ forall stage, stage_fn n' stage = validator n'.
Proof.
  intros Hthis.
  eexists _, _, (derive load_image load_media Quality canvas_to_blob m n (maps h)).
  split; [apply call_allocates; exact Hthis|]. simpl. split; [|split; [|split]].
  - rewrite lookup_app_r by lia. rewrite Nat.sub_diag. reflexivity.
  - destruct m as [d | fn | | | | c t o | r]; try destruct r; reflexivity.
  - destruct m as [d | fn | | | | c t o | r]; try destruct r; reflexivity.
  - intros stage. apply stage_fn_new.
    destruct m as [d | fn | | | | c t o | r]; try destruct r;
      eexists _, _, _, _; reflexivity.
Qed.

(** The cache is shared along a chain.  Once a node has evaluated a
    candidate, every node derived from it (by anything but [setCache])
    answers the same candidate at the same stage with the outcome the
    first node cached, and runs neither its validator nor its
    refinement. *)
Theorem derived_node_reads_shared_cache :
  forall (m : derivation Quality) (this r : nat) (h h' : heap) (n n' : ZetSchema)
         (c : nat) (v parent parent' : value) (stage : string)
         (extra extra' : option on_progress) (w w1 : world) (res : ValidationResult),
    objects h !! this = Some n ->
    cacheMap n = Some c ->
    m <> DSetCache Quality ->
    calling m this h = Some (r, h') ->
    objects h' !! r = Some n' ->
    settle (safeParse n v parent stage extra w) = (w1, res) ->
    safeParse n' v parent' stage extra' w1 = (w1, Plain res).
Proof.
  intros m this r h h' n n' c v parent parent' stage extra extra' w w1 res
         Hthis Hc Hm Hcall Hr Hrun.
  destruct (call_result m this h n Hthis) as (r0 & h0 & n0 & Hcall0 & Hr0 & Hcache & _ & _).
  rewrite Hcall in Hcall0. inversion Hcall0; subst r0 h0.
  rewrite Hr in Hr0. inversion Hr0; subst n0.
  assert (Hc' : cacheMap n' = Some c).
  { rewrite Hcache. destruct m; try exact Hc. contradiction. }
  apply (safeParse_hit n' c); [exact Hc'|].
  exact (safeParse_fills_cache n c v parent stage extra w w1 res Hc Hrun).
Qed.

(** A registered stage belongs to the receiver only.  For a stage
    table that has not been re-parented (no entry [__proto__]) and names
    the table does not inherit: after [stage(name, fn)] the receiver
    evaluates [name] with the validator of the node the builder made and
    every other stage as before; a node derived from the receiver
    afterwards has lost the registration and evaluates [name] with its
    own validator. *)
Theorem stage_registered_then_dropped :
  forall (name : string) (fn : nat -> heap -> option (nat * heap))
         (this built : nat) (h h1 h' : heap) (n b node : ZetSchema),
    object_prototype_member name = false ->
    stages n !! "__proto__" = None ->
    objects h !! this = Some n ->
    fn this h = Some (built, h1) ->
    objects h1 !! built = Some b ->
    (forall l x, objects h !! l = Some x -> objects h1 !! l = Some x) ->
    stage name fn this h = Some (this, h') ->
    objects h' !! this = Some node ->
    stage_fn node name = validator b
    /\ (forall other, other <> name -> object_prototype_member other = false ->
          stage_fn node other = stage_fn n other)
    /\ validator node = validator n
    /\ (forall m, exists r h'' n',
          calling m this h' = Some (r, h'')
          /\ objects h'' !! r = Some n'
          /\ stage_fn n' name = validator n').
Proof.
  intros name fn this built h h1 h' n b node Hname Hproto Hthis Hfn Hb Hkeep Hstage Hnode.
  pose proof (Hkeep this n Hthis) as Hn.
  unfold stage in Hstage. rewrite Hfn, Hb, Hn in Hstage.
  inversion Hstage; subst h'. simpl in Hnode.
  rewrite list_lookup_insert_eq in Hnode by (eapply lookup_lt_Some; exact Hn).
  inversion Hnode; subst node. clear Hnode Hstage.
  split; [|split; [|split]].
  - unfold stage_fn. simpl. rewrite lookup_insert_eq. reflexivity.
  - intros other Hne Hother. unfold stage_fn. simpl.
    rewrite lookup_insert_ne by congruence. reflexivity.
  - reflexivity.
  - intros m.
    match goal with
    | |- context [calling m this ?hh] =>
        assert (Hobj : exists x, objects hh !! this = Some x)
    end.
    { simpl. eexists. apply list_lookup_insert_eq. eapply lookup_lt_Some; exact Hn. }
    destruct Hobj as [x Hx].
    destruct (call_result m this _ x Hx) as (r & h'' & n' & Hcall & Hr & _ & _ & Hst).
    exists r, h'', n'. split; [exact Hcall|]. split; [exact Hr|]. apply Hst.
Qed.

End DerivedNodes.

(** * Further properties of the combinators *)

Lemma all_one_tick {A : Type} (x : A) (xs : list A) :
  Async.all (List.map one_tick (x :: xs)) = one_tick (x :: xs).
Proof.
  revert x. induction xs as [|y ys IH]; intros x.
  - reflexivity.
  - change (Async.all (List.map one_tick (x :: y :: ys)))
      with (Async.map_run (fun '(a, l) => a :: l)
              (Async.both (one_tick x) (Async.all (List.map one_tick (y :: ys))))).
    rewrite IH. reflexivity.
Qed.

Lemma finish_promise_all_one_tick {A : Type} (xs : list A) (w : world) :
  Async.finish (Async.promise_all (List.map one_tick xs)) w = (w, xs).
Proof.
  rewrite finish_promise_all. destruct xs as [|x xs]; [reflexivity|].
  rewrite all_one_tick. reflexivity.
Qed.

Lemma by_completion_same_tick {A : Type} (n : nat) (xs : list A) :
  Async.by_completion (List.map (fun x => (n, x)) xs) = xs.
Proof.
  unfold Async.by_completion.
  assert (Hsort : fold_right Async.insert_by_time [] (List.map (fun x => (n, x)) xs)
                  = List.map (fun x => (n, x)) xs).
  { induction xs as [|x xs IH]; simpl; [reflexivity|].
    rewrite IH. destruct xs; simpl; [reflexivity|].
    rewrite Nat.leb_refl. reflexivity. }
  rewrite Hsort. rewrite map_map. simpl. apply map_id.
Qed.

Lemma outcomes_from_app (f : value -> ValidationResult) (i : nat) (l1 l2 : list value) :
  outcomes_from f i (l1 ++ l2)%list
  = (outcomes_from f i l1 ++ outcomes_from f (i + length l1) l2)%list.
Proof.
  revert i. induction l1 as [|x l1 IH]; intros i; simpl.
  - rewrite Nat.add_0_r. reflexivity.
  - rewrite IH. replace (i + S (length l1))%nat with (S i + length l1)%nat by lia.
    reflexivity.
Qed.

Section ImmediateItems.

Variable itemSchema : ZetSchema.
Variable f : value -> ValidationResult.
Hypothesis immediate :
  forall item w, safeParse itemSchema item VUndefined "default" None w = (w, Plain (f item)).

Lemma start_batch_immediate (i : nat) (batch : list value) (w : world) :
  primitives.start_batch itemSchema i batch w
  = (w, List.map one_tick (outcomes_from f i batch)).
Proof.
  revert i. induction batch as [|item rest IH]; intros i; simpl.
  - reflexivity.
  - rewrite immediate, IH. reflexivity.
Qed.

Lemma array_loop_immediate (concurrency : nat) (items : list value) :
  (1 <= concurrency)%nat ->
  forall (fuel i : nat) (result : list value) (errors : JsObj.t string) (w : world),
    (length items <= i + fuel)%nat ->
    settle (let '(w1, p) :=
              primitives.array_loop itemSchema concurrency fuel items i result errors w in
            (w1, Promise p))
    = (w, let '(result', errors') :=
            fold_left primitives.record_item (outcomes_from f i (drop i items))
              (result, errors) in
          primitives.conclude errors' (VArr result')).
Proof.
  intros Hc. induction fuel as [|fuel IH]; intros i result errors w Hlen.
  - simpl. rewrite drop_ge by lia. reflexivity.
  - simpl. destruct (i <? length items)%nat eqn:Hlt.
    + rewrite start_batch_immediate. simpl.
      rewrite finish_await_run.
      assert (Hstamp : List.map (Async.stamp 0)
                         (List.map one_tick
                            (outcomes_from f i
                               (primitives.slice i (i + concurrency) items)))
                       = List.map one_tick
                           (List.map (fun x => (1%nat, x))
                              (outcomes_from f i
                                 (primitives.slice i (i + concurrency) items)))).
      { rewrite !map_map. reflexivity. }
      rewrite Hstamp, finish_promise_all_one_tick, by_completion_same_tick.
      destruct (fold_left primitives.record_item
                  (outcomes_from f i (primitives.slice i (i + concurrency) items))
                  (result, errors)) as [result' errors'] eqn:Hbatch.
      specialize (IH (i + concurrency)%nat result' errors' w ltac:(lia)).
      destruct (primitives.array_loop itemSchema concurrency fuel items
                  (i + concurrency) result' errors' w) as [w1 p].
      simpl in IH. rewrite IH.
      f_equal.
      rewrite <- (take_drop concurrency (drop i items)).
      rewrite outcomes_from_app, fold_left_app.
      unfold primitives.slice in Hbatch.
      replace (i + concurrency - i)%nat with concurrency in Hbatch by lia.
      rewrite Hbatch. rewrite drop_drop.
      destruct (decide (concurrency <= length (drop i items))%nat) as [Hfull | Hshort].
      * rewrite length_take, Nat.min_l by exact Hfull. reflexivity.
      * rewrite length_drop in Hshort.
        rewrite (drop_ge items (i + concurrency)) by lia. reflexivity.
    + apply Nat.ltb_ge in Hlt. rewrite drop_ge by lia. reflexivity.
Qed.

(** A sequence whose item node answers at once, whatever the world:
    every element is evaluated, the failures are merged under
    [index.key] in ascending index order, and when no element reports
    an error the validated elements come back in the order of the
    input, whatever the batch size. *)
Theorem array_of_immediate_items :
  forall (batchConcurrency : option nat) (items : list value) (parent : value)
         (opts : option on_progress) (w : world),
    settle (validator (primitives.array itemSchema batchConcurrency)
              (VArr items) parent opts w)
    = (w, let '(result, errors) :=
            fold_left primitives.record_item (outcomes_from f 0 items) ([], []) in
          primitives.conclude errors (VArr result))
    /\ (forall data, List.map f items = List.map Success data ->
          settle (validator (primitives.array itemSchema batchConcurrency)
                    (VArr items) parent opts w)
          = (w, Success (VArr data))).
Proof.
  intros batchConcurrency items parent opts w.
  assert (Hrun : settle (validator (primitives.array itemSchema batchConcurrency)
                           (VArr items) parent opts w)
                 = (w, let '(result, errors) :=
                         fold_left primitives.record_item (outcomes_from f 0 items) ([], []) in
                       primitives.conclude errors (VArr result))).
  { simpl.
    assert (Hc : (1 <= primitives.batch_size batchConcurrency)%nat).
    { unfold primitives.batch_size. destruct batchConcurrency as [[|n]|]; lia. }
    pose proof (array_loop_immediate (primitives.batch_size batchConcurrency) items Hc
                  (length items) 0%nat [] [] w ltac:(lia)) as Hloop.
    destruct (primitives.array_loop itemSchema (primitives.batch_size batchConcurrency)
                (length items) items 0 [] [] w) as [w1 p].
    simpl in *. exact Hloop. }
  split; [exact Hrun|].
  intros data Hdata. rewrite Hrun. f_equal.
  assert (Hfold : forall i (its : list value) (ds acc : list value),
             List.map f its = List.map Success ds ->
             fold_left primitives.record_item (outcomes_from f i its) (acc, [])
             = ((acc ++ ds)%list, [])).
  { intros i its. revert i. induction its as [|x its IHits]; intros i ds acc Hmap.
    - destruct ds; [|discriminate]. simpl. rewrite app_nil_r. reflexivity.
    - destruct ds as [|d ds]; [discriminate|]. simpl in Hmap.
      inversion Hmap as [[Hx Hrest]]. simpl. rewrite Hx.
      unfold primitives.record_item at 2. simpl.
      pose proof (IHits (S i) ds (acc ++ [d])%list Hrest) as Hstep.
      rewrite <- app_assoc in Hstep. exact Hstep. }
  rewrite (Hfold 0%nat items data [] Hdata). reflexivity.
Qed.

End ImmediateItems.

(** The settled run of a record node, for every value of its rule. *)
Lemma object_validator_settles (shape : JsObj.t ZetSchema) (v parent : value)
    (opts : option on_progress) (w : world) :
  primitives.is_object v = true ->
  exists w',
    forall rule,
      settle (primitives.object_validator shape rule v parent opts w)
      = (w', let outs := field_outcomes shape v w in
             let result := fst (fold_left primitives.record_field outs ([], [])) in
             primitives.conclude
               (primitives.apply_rule rule result (write_all (reported outs) []))
               (VObj result)).
Proof.
  intros Hobj. unfold primitives.object_validator, field_outcomes. rewrite Hobj. simpl.
  destruct (primitives.start_fields (JsObj.entries shape) v w) as [w1 tasks]. simpl.
  destruct (Async.finish (Async.all (List.map (Async.stamp 0) tasks)) w1)
    as [w2 done] eqn:Hfin.
  exists w2. intros rule.
  rewrite finish_await_run, finish_promise_all, Hfin. simpl.
  destruct (fold_left primitives.record_field (Async.by_completion done) ([], []))
    as [result errors] eqn:Hfold.
  assert (Herr : errors = write_all (reported (Async.by_completion done)) []).
  { apply (f_equal snd) in Hfold. simpl in Hfold. rewrite <- Hfold.
    apply record_field_errors. }
  rewrite Herr. reflexivity.
Qed.

(** The cross-field rule of the node [object(shape)] makes, set on that
    very node.  When no field reports an error, the node's validator,
    run while the node's [formRule] property holds a rule, fails with the
    single entry [form] exactly when the rule returns a message for the
    assembled fields (an empty message too), and otherwise succeeds with
    the very value it succeeds with while the property is undefined. *)
Theorem form_rule_decides :
  forall (shape : JsObj.t ZetSchema) (check : value -> option string)
         (v parent : value) (opts : option on_progress) (w : world),
    primitives.is_object v = true ->
    reported (field_outcomes shape v w) = [] ->
    exists w' result,
      settle (primitives.object_validator shape None v parent opts w)
      = (w', Success (VObj result))
      /\ settle (primitives.object_validator shape (Some check) v parent opts w)
         = (w', match check (VObj result) with
                | Some message => Failure [("form", message)]
                | None => Success (VObj result)
                end).
Proof.
  intros shape check v parent opts w Hobj Hnone.
  destruct (object_validator_settles shape v parent opts w Hobj) as [w' Hrun].
  exists w', (fst (fold_left primitives.record_field (field_outcomes shape v w) ([], []))).
  rewrite !Hrun. cbv zeta. rewrite Hnone. simpl. split.
  - reflexivity.
  - unfold primitives.apply_rule. simpl.
    destruct (check _) as [message|]; reflexivity.
Qed.

Lemma put_fresh {A : Type} (k : string) (x : A) (o : JsObj.t A) :
  ~ In k (List.map fst o) -> JsObj.put k x o = (o ++ [(k, x)])%list.
Proof.
  induction o as [|[k0 x0] o IH]; simpl; intros Hfresh.
  - reflexivity.
  - destruct (String.eqb k k0) eqn:E.
    + apply String.eqb_eq in E. subst. tauto.
    + rewrite IH by tauto. reflexivity.
Qed.

Section ImmediateFields.

Variable shape : JsObj.t ZetSchema.
Variable g : string -> value -> ValidationResult.
Hypothesis immediate :
  forall key schema, In (key, schema) (JsObj.entries shape) ->
    forall x parent w, safeParse schema x parent "default" None w = (w, Plain (g key x)).

Lemma start_fields_immediate (fields : JsObj.t ZetSchema) (v : value) (w : world) :
  (forall key schema, In (key, schema) fields -> In (key, schema) (JsObj.entries shape)) ->
  primitives.start_fields fields v w
  = (w, List.map one_tick
          (List.map (fun e => (fst e, g (fst e) (primitives.get_prop v (fst e)))) fields)).
Proof.
  induction fields as [|[key schema] rest IH]; intros Hin; simpl.
  - reflexivity.
  - rewrite (immediate key schema) by (apply Hin; left; reflexivity).
    rewrite IH by (intros k s Hks; apply Hin; right; exact Hks). reflexivity.
Qed.

Lemma field_outcomes_immediate (v : value) (w : world) :
  field_outcomes shape v w = declared_outcomes shape g v
  /\ fst (let '(w1, tasks) := primitives.start_fields (JsObj.entries shape) v w in
          Async.finish (Async.promise_all (List.map (Async.stamp 0) tasks)) w1) = w.
Proof.
  unfold field_outcomes, declared_outcomes.
  rewrite start_fields_immediate by auto.
  set (outs := List.map (fun e => (fst e, g (fst e) (primitives.get_prop v (fst e))))
                 (JsObj.entries shape)).
  assert (Hstamp : List.map (Async.stamp 0) (List.map one_tick outs)
                   = List.map one_tick (List.map (fun x => (1%nat, x)) outs)).
  { rewrite !map_map. reflexivity. }
  rewrite Hstamp. rewrite <- finish_promise_all, finish_promise_all_one_tick. simpl.
  rewrite by_completion_same_tick. split; reflexivity.
Qed.

(** A record whose field nodes answer at once, on a candidate that is
    an object and declared names the candidate owns or does not inherit:
    the fields are evaluated in the order [Object.entries] lists the
    shape, each on the candidate's property of its name ([undefined]
    when there is none).  When all of them succeed, under distinct names
    other than [__proto__], the value is the record of the declared
    fields in that order: properties of the candidate the shape does not
    declare are left out. *)
Theorem object_of_immediate_fields :
  forall (rule : option (value -> option string)) (props : JsObj.t value)
         (v parent : value) (opts : option on_progress) (w : world),
    v = VObj props ->
    (forall key, In key (JsObj.keys shape) -> JsObj.get key props = None ->
                 object_prototype_member key = false) ->
    settle (primitives.object_validator shape rule v parent opts w)
    = (w, let '(result, errors) :=
            fold_left primitives.record_field (declared_outcomes shape g v) ([], []) in
          primitives.conclude (primitives.apply_rule rule result errors) (VObj result))
    /\ (forall data,
          List.map snd (declared_outcomes shape g v) = List.map Success data ->
          NoDup (JsObj.keys shape) ->
          ~ In "__proto__" (JsObj.keys shape) ->
          settle (validator (primitives.object shape) v parent opts w)
          = (w, Success (VObj (zip (JsObj.keys shape) data)))).
Proof.
  intros rule props v parent opts w Hv Hkeys_own.
  assert (Hobj : primitives.is_object v = true) by (rewrite Hv; reflexivity).
  destruct (field_outcomes_immediate v w) as [Houts Hworld].
  assert (Hrun : forall rule0,
             settle (primitives.object_validator shape rule0 v parent opts w)
             = (w, let '(result, errors) :=
                     fold_left primitives.record_field (declared_outcomes shape g v) ([], []) in
                   primitives.conclude (primitives.apply_rule rule0 result errors)
                     (VObj result))).
  { intros rule0. unfold primitives.object_validator. rewrite Hobj. simpl.
    unfold field_outcomes in Houts.
    destruct (primitives.start_fields (JsObj.entries shape) v w) as [w1 tasks].
    simpl. rewrite finish_await_run.
    rewrite finish_promise_all in *.
    destruct (Async.finish (Async.all (List.map (Async.stamp 0) tasks)) w1) as [w2 done].
    simpl in *. subst w2. rewrite Houts.
    destruct (fold_left primitives.record_field (declared_outcomes shape g v) ([], []));
      reflexivity. }
  split; [apply Hrun|].
  intros data Hdata Hnodup Hproto. simpl. rewrite Hrun.
  assert (Hfold : forall (ks : list string) (outs : list (string * ValidationResult))
                         (ds : list value) (acc : JsObj.t value),
             List.map fst outs = ks ->
             List.map snd outs = List.map Success ds ->
             NoDup (List.map fst acc ++ ks)%list ->
             ~ In "__proto__" ks ->
             fold_left primitives.record_field outs (acc, [])
             = ((acc ++ zip ks ds)%list, [])).
  { intros ks outs. revert ks. induction outs as [|[k r] outs IHo];
      intros ks ds acc Hks Hds Hnd Hnp.
    - simpl in *. subst ks. simpl. rewrite app_nil_r. reflexivity.
    - destruct ds as [|d ds]; [discriminate|]. simpl in Hks, Hds. subst ks.
      inversion Hds as [[Hr Hrest]]. subst r. simpl.
      unfold primitives.record_field at 2. simpl.
      assert (Hkp : String.eqb k "__proto__" = false).
      { apply String.eqb_neq. intros ->. apply Hnp. left. reflexivity. }
      unfold JsObj.set. rewrite Hkp.
      rewrite put_fresh.
      2:{ intros Hin. apply NoDup_app in Hnd. destruct Hnd as (_ & Hdisj & _).
          apply (Hdisj k); [apply list_elem_of_In; exact Hin|]. left. }
      assert (Hnd' : NoDup (List.map fst (acc ++ [(k, d)]) ++ List.map fst outs)%list).
      { rewrite map_app. simpl. rewrite <- app_assoc. exact Hnd. }
      assert (Hnp' : ~ In "__proto__" (List.map fst outs)).
      { intros Hin. apply Hnp. right. exact Hin. }
      pose proof (IHo (List.map fst outs) ds (acc ++ [(k, d)])%list eq_refl Hrest Hnd' Hnp')
        as Hstep.
      rewrite <- app_assoc in Hstep. exact Hstep. }
  assert (Hkeys : List.map fst (declared_outcomes shape g v) = JsObj.keys shape).
  { unfold declared_outcomes, JsObj.keys. rewrite map_map. reflexivity. }
  pose proof (Hfold (JsObj.keys shape) (declared_outcomes shape g v) data []
                Hkeys Hdata Hnodup Hproto) as Hres.
  match goal with
  | |- context [fold_left ?step ?outs ?start] =>
      replace (fold_left step outs start)
        with (zip (JsObj.keys shape) data, @nil (string * string))
        by (symmetry; exact Hres)
  end.
  reflexivity.
Qed.

End ImmediateFields.

Lemma includes_In (l : list string) (s : string) :
  includes l s = true <-> In s l.
Proof.
  unfold includes. rewrite existsb_exists. split.
  - intros (x & Hin & Heq). apply String.eqb_eq in Heq. subst. exact Hin.
  - intros Hin. exists s. split; [exact Hin|apply String.eqb_refl].
Qed.

(** [extension]: a file passes exactly when its MIME type is the one of
    a listed extension: the table's entry for the extension in lower
    case, or [application/] followed by the extension as it is written.
    A rejected file gets the caller's message or the list of extensions,
    never the message of [type]. *)
Theorem extension_accepts :
  forall (this : ZetSchema) (extensions : list string) (message : option string)
         (v parent : value) (opts : option on_progress) (w w1 : world) (f : File),
    settle (validator this v VUndefined None w) = (w1, Success (VFile f)) ->
    (settle (validator (extension this extensions message) v parent opts w)
     = (w1, Success (VFile f))
     <-> exists ext, In ext extensions /\ extension_type ext = Some (f_type f))
    /\ (settle (validator (extension this extensions message) v parent opts w)
        = (w1, Success (VFile f))
        \/ settle (validator (extension this extensions message) v parent opts w)
           = (w1, Failure [(description this,
                            or_default message
                              (description this ++ " must have one of these extensions: "
                               ++ JSON.join ", " extensions))])).
Proof.
  intros this extensions message v parent opts w w1 f Hbase.
  set (allowed := omap extension_type extensions).
  set (fallback := description this ++ " must have one of these extensions: "
                   ++ JSON.join ", " extensions).
  assert (Hmsg : or_default (Some (or_default message fallback))
                   (description this ++ " must be one of: " ++ JSON.join ", " allowed)
                 = or_default message fallback).
  { unfold or_default at 1.
    destruct (String.eqb (or_default message fallback) EmptyString) eqn:E; [|reflexivity].
    apply String.eqb_eq in E. exfalso. revert E. unfold or_default, fallback.
    destruct message as [m|].
    - destruct (String.eqb m EmptyString) eqn:Em.
      + destruct (description this); discriminate.
      + apply String.eqb_neq in Em. intros E. contradiction.
    - destruct (description this); discriminate. }
  assert (Hrun : settle (validator (extension this extensions message) v parent opts w)
                 = (w1, if includes allowed (f_type f) then Success (VFile f)
                        else Failure [(description this, or_default message fallback)])).
  { unfold extension. fold extension_type. fold allowed. fold fallback. simpl.
    destruct (validator this v VUndefined None w) as [w0 res]. simpl.
    rewrite finish_await, Hbase.
    destruct (includes allowed (f_type f)); simpl; [reflexivity|].
    apply (f_equal (fun m => (w1, Failure [(description this, m)]))). exact Hmsg. }
  split.
  - rewrite Hrun. destruct (includes allowed (f_type f)) eqn:Hinc.
    + split; [intros _|reflexivity].
      apply includes_In in Hinc. apply list_elem_of_In in Hinc.
      apply list_elem_of_omap in Hinc. destruct Hinc as (ext & Hext & Htype).
      exists ext. split; [apply list_elem_of_In; exact Hext|exact Htype].
    + split; [discriminate|]. intros (ext & Hext & Htype). exfalso.
      assert (Hin : includes allowed (f_type f) = true).
      { apply includes_In. apply list_elem_of_In. apply list_elem_of_omap.
        exists ext. split; [apply list_elem_of_In; exact Hext|exact Htype]. }
      congruence.
  - rewrite Hrun. destruct (includes allowed (f_type f)); [left|right]; reflexivity.
Qed.

(** The failure of a base type or of a combinator on a candidate of the
    wrong kind is keyed [value], whatever description the node is
    given (at a stage whose name the stage table does not inherit). *)
Theorem wrong_kind_is_keyed_value :
  forall (d : string) (v parent : value) (stage : string) (extra : option on_progress)
         (w : world),
    object_prototype_member stage = false ->
    ((forall s, v <> VStr s) ->
       settle (safeParse (describe primitives.string d) v parent stage extra w)
       = (w, Failure [("value", "Expected a string")]))
    /\ ((forall f, v <> VFile f) ->
       settle (safeParse (describe primitives.file d) v parent stage extra w)
       = (w, Failure [("value", "Expected a file")]))
    /\ (forall itemSchema batchConcurrency, (forall items, v <> VArr items) ->
       settle (safeParse (describe (primitives.array itemSchema batchConcurrency) d)
                 v parent stage extra w)
       = (w, Failure [("value", "Expected an array")]))
    /\ (forall shape, primitives.is_object v = false ->
       settle (safeParse (describe (primitives.object shape) d) v parent stage extra w)
       = (w, Failure [("value", "Expected an object")])).
Proof.
  intros d v parent stage extra w Hown.
  assert (Hstage : forall n, stage_fn (describe n d) stage = validator n).
  { intros n. rewrite stage_fn_new by (eexists _, _, _, _; reflexivity). reflexivity. }
  repeat split.
  - intros Hv. unfold safeParse. rewrite Hstage. simpl.
    destruct v; try reflexivity. exfalso. eapply Hv. reflexivity.
  - intros Hv. unfold safeParse. rewrite Hstage. simpl.
    destruct v; try reflexivity. exfalso. eapply Hv. reflexivity.
  - intros itemSchema batchConcurrency Hv. unfold safeParse. rewrite Hstage. simpl.
    destruct v; try reflexivity. exfalso. eapply Hv. reflexivity.
  - intros shape Hv. unfold safeParse. rewrite Hstage. simpl.
    unfold primitives.object_validator. rewrite Hv. reflexivity.
Qed.

Lemma conclude_failure (errors e : JsObj.t string) (data : value) :
  primitives.conclude errors data = Failure e -> e <> [].
Proof.
  unfold primitives.conclude, JsObj.keys. rewrite length_map, entries_length.
  destruct errors; simpl; [discriminate|]. intros H. inversion H. discriminate.
Qed.

Lemma array_loop_concludes (itemSchema : ZetSchema) (concurrency : nat)
    (items : list value) :
  forall (fuel i : nat) (result : list value) (errors : JsObj.t string) (w : world),
    settles_in (fun r => exists e d, r = primitives.conclude e d)
      (snd (primitives.array_loop itemSchema concurrency fuel items i result errors w)).
Proof.
  induction fuel as [|fuel IH]; intros i result errors w; simpl.
  - eauto.
  - destruct (i <? length items)%nat; [|simpl; eauto].
    destruct (primitives.start_batch itemSchema i _ w) as [w1 tasks]. simpl.
    apply settles_in_await_run. intros done w'.
    destruct (fold_left primitives.record_item (Async.by_completion done) (result, errors))
      as [result' errors'].
    apply IH.
Qed.

(** Whatever their children do, the sequence and the record node never
    fail with an empty error map: [parse] on them always has a first
    message to throw. *)
Theorem combinators_never_fail_empty :
  forall (v parent : value) (opts : option on_progress) (w w' : world)
         (errors : JsObj.t string),
    (forall itemSchema batchConcurrency,
        settle (validator (primitives.array itemSchema batchConcurrency) v parent opts w)
        = (w', Failure errors) -> errors <> [])
    /\ (forall shape rule,
          settle (primitives.object_validator shape rule v parent opts w)
          = (w', Failure errors) -> errors <> []).
Proof.
  intros v parent opts w w' errors. split.
  - intros itemSchema batchConcurrency Hrun. simpl in Hrun.
    destruct v; try (inversion Hrun; discriminate).
    pose proof (array_loop_concludes itemSchema (primitives.batch_size batchConcurrency)
                  items (length items) 0%nat [] [] w) as Hloop.
    destruct (primitives.array_loop itemSchema (primitives.batch_size batchConcurrency)
                (length items) items 0 [] [] w) as [w1 p].
    simpl in *. apply (settles_in_finish _ _ w1) in Hloop. rewrite Hrun in Hloop.
    destruct Hloop as (e & d & Heq). simpl in Heq. symmetry in Heq.
    exact (conclude_failure e errors d Heq).
  - intros shape rule Hrun.
    destruct (primitives.is_object v) eqn:Hobj.
    + destruct (object_validator_settles shape v parent opts w Hobj) as [w2 Hset].
      rewrite Hset in Hrun. inversion Hrun as [[Hw Hc]].
      exact (conclude_failure _ errors _ Hc).
    + unfold primitives.object_validator in Hrun. rewrite Hobj in Hrun.
      inversion Hrun. discriminate.
Qed.

Lemma settles_in_bind {A B : Type} (Q : A -> Prop) (Q' : B -> Prop) (p : run A)
    (k : A -> world -> world * run B) :
  settles_in Q p ->
  (forall a, Q a -> forall w, settles_in Q' (snd (k a w))) ->
  settles_in Q' (Async.await_run p k).
Proof.
  intros Hp Hk. induction p as [a | step IH] using run_induction; simpl in *.
  - intros w. apply Hk. exact Hp.
  - intros w. specialize (Hp w). specialize (IH w). destruct (step w) as [w' p'].
    simpl in *. apply IH. exact Hp.
Qed.

Lemma settles_in_all_Forall {A : Type} (Q : A -> Prop) (ps : list (run A)) :
  Forall (settles_in Q) ps -> settles_in (Forall Q) (Async.all ps).
Proof.
  intros Hps.
  assert (H2 : Forall2 (fun Q0 p => settles_in Q0 p) (List.map (fun _ => Q) ps) ps).
  { induction Hps; simpl; constructor; assumption. }
  apply settles_in_all in H2.
  revert H2. generalize (Async.all ps). intros p.
  induction p as [l | k IH] using run_induction; simpl.
  - intros Hl. clear Hps. revert l Hl.
    induction ps as [|p0 ps IHps]; intros l Hl; simpl in Hl; inversion Hl; subst.
    + constructor.
    + constructor; [assumption|]. apply IHps. assumption.
  - intros H w. specialize (H w). specialize (IH w). destruct (k w). simpl in *. auto.
Qed.

Lemma set_keeps_keys (P : string -> Prop) (k v : string) (o : JsObj.t string) :
  P k -> Forall (fun e => P (fst e)) o -> Forall (fun e => P (fst e)) (JsObj.set k v o).
Proof.
  intros Hk Ho. unfold JsObj.set. destruct (String.eqb k "__proto__"); [exact Ho|].
  induction Ho as [|[k0 v0] o Hk0 Ho' IH]; simpl.
  - constructor; [exact Hk|constructor].
  - destruct (String.eqb k k0); constructor; assumption.
Qed.

Section ArrayKeys.

Variable itemSchema : ZetSchema.
Variable concurrency : nat.
Variable items : list value.

Lemma start_batch_indices (batch : list value) (i : nat) (w : world) :
  (i + length batch <= length items)%nat ->
  Forall (settles_in (fun x : nat * (nat * ValidationResult) =>
                        (fst (snd x) < length items)%nat))
         (List.map (Async.stamp 0) (snd (primitives.start_batch itemSchema i batch w))).
Proof.
  revert i w. induction batch as [|item rest IH]; intros i w Hlen; simpl.
  - constructor.
  - destruct (safeParse itemSchema item VUndefined "default" None w) as [w1 r].
    specialize (IH (S i) w1 ltac:(simpl in Hlen; lia)).
    destruct (primitives.start_batch itemSchema (S i) rest w1) as [w2 ps]. simpl in *.
    constructor; [|exact IH].
    apply (settles_in_stamp (fun x : nat * ValidationResult =>
                               (fst x < length items)%nat)).
    destruct r as [a | p]; simpl.
    + intros w0. simpl. lia.
    + apply settles_in_await_run. intros a w0. simpl. lia.
Qed.

Lemma record_item_keys (done : list (nat * ValidationResult))
    (result : list value) (errors : JsObj.t string) :
  Forall (fun x => (fst x < length items)%nat) done ->
  Forall (fun e => indexed_key items (fst e)) errors ->
  Forall (fun e => indexed_key items (fst e))
         (snd (fold_left primitives.record_item done (result, errors))).
Proof.
  intros Hdone. revert result errors.
  induction Hdone as [|[i r] done Hi _ IH]; intros result errors Herr; simpl.
  - exact Herr.
  - destruct r as [d | errs]; unfold primitives.record_item at 2; simpl.
    + apply IH. exact Herr.
    + apply IH. simpl in Hi.
      generalize (JsObj.entries errs). intros l. revert errors Herr.
      induction l as [|[k m] l IHl]; intros errors Herr; simpl; [exact Herr|].
      apply IHl. apply set_keeps_keys; [|exact Herr].
      exists i, k. split; [exact Hi|reflexivity].
Qed.

Lemma array_loop_keys :
  forall (fuel i : nat) (result : list value) (errors : JsObj.t string) (w : world),
    Forall (fun e => indexed_key items (fst e)) errors ->
    settles_in (fun r => forall e, r = Failure e -> Forall (fun x => indexed_key items (fst x)) e)
      (snd (primitives.array_loop itemSchema concurrency fuel items i result errors w)).
Proof.
  assert (Hend : forall errors data,
             Forall (fun e => indexed_key items (fst e)) errors ->
             forall e, primitives.conclude errors data = Failure e ->
                       Forall (fun x => indexed_key items (fst x)) e).
  { intros errors data Herr e. unfold primitives.conclude.
    destruct (0 <? length (JsObj.keys errors))%nat; [|discriminate].
    intros H. inversion H. subst. exact Herr. }
  induction fuel as [|fuel IH]; intros i result errors w Herr; simpl.
  - apply Hend. exact Herr.
  - destruct (i <? length items)%nat eqn:Hlt; [|simpl; apply Hend; exact Herr].
    apply Nat.ltb_lt in Hlt.
    assert (Hlen : (i + length (primitives.slice i (i + concurrency) items)
                    <= length items)%nat).
    { unfold primitives.slice. rewrite length_take, length_drop. lia. }
    pose proof (start_batch_indices _ i w Hlen) as Htasks.
    destruct (primitives.start_batch itemSchema i
                (primitives.slice i (i + concurrency) items) w) as [w1 tasks].
    simpl in *.
    apply (settles_in_bind (Forall (fun x : nat * (nat * ValidationResult) =>
                                      (fst (snd x) < length items)%nat))).
    + unfold Async.promise_all.
      destruct (List.map (Async.stamp 0) tasks) as [|p ps] eqn:Hps; [constructor|].
      unfold Async.then_.
      apply (settles_in_bind (Forall (fun x : nat * (nat * ValidationResult) =>
                                        (fst (snd x) < length items)%nat))).
      * apply settles_in_all_Forall. exact Htasks.
      * intros l Hl w0. simpl. exact Hl.
    + intros done Hdone w'.
      assert (Hsorted : Forall (fun x : nat * ValidationResult =>
                                  (fst x < length items)%nat)
                               (Async.by_completion done)).
      { apply Forall_forall. intros x Hx. apply list_elem_of_In in Hx.
        apply (Permutation_in _ (by_completion_perm done)) in Hx.
        apply in_map_iff in Hx. destruct Hx as (y & <- & Hy).
        rewrite Forall_forall in Hdone. apply Hdone. apply list_elem_of_In. exact Hy. }
      pose proof (record_item_keys (Async.by_completion done) result errors
                    Hsorted Herr) as Hkeys.
      destruct (fold_left primitives.record_item (Async.by_completion done)
                  (result, errors)) as [result' errors'].
      apply IH. exact Hkeys.
Qed.

End ArrayKeys.

(** Every entry of the error map of a failing sequence belongs to an
    element: its key is [index.key] for an index of the input. *)
Theorem array_error_keys_indexed :
  forall (itemSchema : ZetSchema) (batchConcurrency : option nat) (items : list value)
         (parent : value) (opts : option on_progress) (w w' : world)
         (errors : JsObj.t string),
    settle (validator (primitives.array itemSchema batchConcurrency)
              (VArr items) parent opts w)
    = (w', Failure errors) ->
    Forall (fun e => indexed_key items (fst e)) errors.
Proof.
  intros itemSchema batchConcurrency items parent opts w w' errors Hrun. simpl in Hrun.
  pose proof (array_loop_keys itemSchema (primitives.batch_size batchConcurrency) items
                (length items) 0%nat [] [] w ltac:(constructor)) as Hloop.
  destruct (primitives.array_loop itemSchema (primitives.batch_size batchConcurrency)
              (length items) items 0 [] [] w) as [w1 p].
  simpl in *. apply (settles_in_finish _ _ w1) in Hloop. rewrite Hrun in Hloop.
  simpl in Hloop. apply Hloop. reflexivity.
Qed.

(** [serverValidate] called with a progress callback: every value the
    check reports reaches the callback together with the description of
    the node, in order; without a callback the reports go nowhere.  The
    verdict decides the outcome either way. *)
Theorem serverValidate_reports_under_description :
  forall (this : ZetSchema) (steps : list Z) (verdict : bool) (message : option string)
         (v parent : value) (cb : on_progress) (w w1 : world) (f : File),
    settle (validator this v parent None w) = (w1, Success (VFile f)) ->
    let outcome :=
      if verdict then Success (VFile f)
      else Failure [(description this, or_default message "Server rejected the file")] in
    settle (validator (serverValidate this (check_reporting steps verdict) message)
              v parent (Some cb) w)
    = (fold_left (fun w0 p => cb (description this) p w0) steps w1, outcome)
    /\ settle (validator (serverValidate this (check_reporting steps verdict) message)
                 v parent None w)
       = (w1, outcome).
Proof.
  intros this steps verdict message v parent cb w w1 f Hbase outcome.
  assert (Hquiet : forall w0, fold_left (fun (w2 : world) (_ : Z) => w2) steps w0 = w0).
  { induction steps as [|p ps IH]; intros w0; simpl; [reflexivity|apply IH]. }
  split; simpl;
    destruct (validator this v parent None w) as [w0 res]; simpl;
    rewrite finish_await, Hbase; unfold check_reporting; simpl;
    rewrite ?Hquiet; unfold outcome; destruct verdict; reflexivity.
Qed.

(** * Closed instances of the further properties *)



Lemma maxDuration_boundary_witness :
  settle (validator (maxDuration (media_of_length 30) primitives.file 30 None)
            (VFile (mkFile 1 "clip.mp4" "video/mp4" 10)) VUndefined None (mkWorld ∅ []))
  = (mkWorld ∅ [], Success (VFile (mkFile 1 "clip.mp4" "video/mp4" 10))).
Proof.
  exact (proj2 (maxDuration_boundary (media_of_length 30) primitives.file 30 None
                  (VFile (mkFile 1 "clip.mp4" "video/mp4" 10)) VUndefined None
                  (mkWorld ∅ []) (mkWorld ∅ [])
                  (mkFile 1 "clip.mp4" "video/mp4" 10) eq_refl)
               (mkWorld ∅ []) (mkWorld ∅ []) (Pending (fun w' => (w', Done 30))) 30
               eq_refl eq_refl eq_refl).
Defined.

Lemma parse_agrees_with_safeParse_witness :
  settle (parse primitives.string (VNum 1) VUndefined "default" (mkWorld ∅ []))
  = (mkWorld ∅ [], Threw "Expected a string").
Proof.
  exact (parse_agrees_with_safeParse primitives.string (VNum 1) VUndefined "default"
           None (mkWorld ∅ []) eq_refl).
Defined.

Lemma optional_behaviour_witness :
  safeParse (optional (setTransform primitives.string (fun _ => VStr "none")))
    VUndefined VUndefined "default" None (mkWorld ∅ [])
  = (mkWorld ∅ [], Plain (Success (VStr "none"))).
Proof.
  exact (proj1 (optional_behaviour
                  (setTransform primitives.string (fun _ => VStr "none"))
                  VUndefined "default" None (mkWorld ∅ []) eq_refl eq_refl)).
Defined.

Lemma json_round_trip_forgets_validation_witness :
  safeParse (fromJSON (mjoin (JsObj.get "description"
                                (toJSON (maxSizeMB (describe primitives.file "avatar") 1 None)))))
    (VNum 7) VUndefined "draft" None (mkWorld ∅ [])
  = (mkWorld ∅ [], Plain (Success (VNum 7))).
Proof.
  exact (proj1 (proj2 (json_round_trip_forgets_validation
                         (maxSizeMB (describe primitives.file "avatar") 1 None)
                         (VNum 7) VUndefined "draft" None (mkWorld ∅ []) eq_refl))).
Defined.

Lemma wrong_kind_is_keyed_value_witness :
  settle (safeParse (describe primitives.string "name") (VNum 123) VUndefined "default"
            None (mkWorld ∅ []))
  = (mkWorld ∅ [], Failure [("value", "Expected a string")]).
Proof.
  apply (proj1 (wrong_kind_is_keyed_value "name" (VNum 123) VUndefined "default" None
                  (mkWorld ∅ []) eq_refl)).
  discriminate.
Defined.

(** A cached file node, a large file it accepts, and the size ceiling
    derived afterwards: the ceiling answers with the cached success. *)
Lemma derived_node_reads_shared_cache_witness :
  let n := setCache primitives.file 0 in
  let big := VFile (mkFile 1 "big.bin" "application/octet-stream" 9000000) in
  let first := settle (safeParse n big VUndefined "default" None (mkWorld ∅ [])) in
  safeParse (maxSizeMB n 1 None) big VUndefined "default" None (fst first)
  = (fst first, Plain (Success big)).
Proof.
  intros n big first.
  apply (derived_node_reads_shared_cache instant_image instant_media unit instant_canvas
           (DRefine unit (RMaxSizeMB unit 1 None)) 0%nat 1%nat
           (mkHeap [n] 1) (mkHeap [n; maxSizeMB n 1 None] 1) n (maxSizeMB n 1 None)
           0%nat big VUndefined VUndefined "default" None None
           (mkWorld ∅ []) (fst first) (Success big)).
  - reflexivity.
  - reflexivity.
  - discriminate.
  - reflexivity.
  - reflexivity.
  - vm_compute. reflexivity.
Defined.

Lemma stage_registered_then_dropped_witness :
  let h := mkHeap [primitives.string] 0 in
  let call_ := call instant_image instant_media unit instant_canvas in
  let node := mkSchema (validator primitives.string) "value" None None
                (<["draft" := validator (optional primitives.string)]>
                   (stages primitives.string)) in
  stage_fn node "draft" = validator (optional primitives.string)
  /\ (forall other, other <> "draft" -> object_prototype_member other = false ->
        stage_fn node other = stage_fn primitives.string other)
  /\ validator node = validator primitives.string
  /\ (forall m, exists r h'' n',
        call_ m 0%nat (mkHeap [node; optional primitives.string] 0) = Some (r, h'')
        /\ objects h'' !! r = Some n'
        /\ stage_fn n' "draft" = validator n').
Proof.
  intros h call_ node.
  apply (stage_registered_then_dropped instant_image instant_media unit instant_canvas
           "draft" (call_ (DOptional unit)) 0%nat 1%nat h
           (mkHeap [primitives.string; optional primitives.string] 0)
           (mkHeap [node; optional primitives.string] 0)
           primitives.string (optional primitives.string) node).
  - reflexivity.
  - reflexivity.
  - reflexivity.
  - reflexivity.
  - reflexivity.
  - intros l x Hl. destruct l as [|[|l]]; simpl in *;
      [exact Hl|discriminate Hl|discriminate Hl].
  - reflexivity.
  - reflexivity.
Defined.

Lemma array_of_immediate_items_witness :
  settle (validator (primitives.array primitives.string (Some 2%nat))
            (VArr [VStr "a"; VNum 1; VStr "c"; VNull; VStr "e"])
            VUndefined None (mkWorld ∅ []))
  = (mkWorld ∅ [],
     Failure [("1.value", "Expected a string"); ("3.value", "Expected a string")]).
Proof.
  apply (array_of_immediate_items primitives.string string_outcome).
  intros item w. destruct item; reflexivity.
Defined.

Lemma form_rule_decides_witness :
  exists w' result,
    settle (primitives.object_validator [("name", primitives.string)] None
              (VObj [("name", VStr "a")]) VUndefined None (mkWorld ∅ []))
    = (w', Success (VObj result))
    /\ settle (primitives.object_validator [("name", primitives.string)]
                 (Some (fun _ => Some "names differ"))
                 (VObj [("name", VStr "a")]) VUndefined None (mkWorld ∅ []))
       = (w', match (fun _ : value => Some "names differ") (VObj result) with
              | Some message => Failure [("form", message)]
              | None => Success (VObj result)
              end).
Proof.
  apply (form_rule_decides [("name", primitives.string)] (fun _ => Some "names differ")
           (VObj [("name", VStr "a")]) VUndefined None (mkWorld ∅ [])).
  - reflexivity.
  - vm_compute. reflexivity.
Defined.

Lemma object_of_immediate_fields_witness :
  settle (validator name_age_schema
            (VObj [("age", VStr "5"); ("extra", VNum 1); ("name", VStr "n")])
            VUndefined None (mkWorld ∅ []))
  = (mkWorld ∅ [], Success (VObj [("name", VStr "n"); ("age", VStr "5")])).
Proof.
  apply (proj2 (object_of_immediate_fields
                  [("name", primitives.string); ("age", primitives.string)]
                  (fun _ => string_outcome)
                  ltac:(intros key schema Hin x parent w; simpl in Hin;
                        destruct Hin as [Heq | [Heq | []]]; inversion Heq; subst;
                        destruct x; reflexivity)
                  None
                  [("age", VStr "5"); ("extra", VNum 1); ("name", VStr "n")]
                  (VObj [("age", VStr "5"); ("extra", VNum 1); ("name", VStr "n")])
                  VUndefined None (mkWorld ∅ []) eq_refl
                  ltac:(intros key Hin Hget; simpl in Hin;
                        destruct Hin as [Heq | [Heq | []]]; subst key; reflexivity))
               [VStr "n"; VStr "5"]).
  - reflexivity.
  - apply (bool_decide_unpack _). vm_compute. reflexivity.
  - vm_compute. intros [H1 | [H2 | H3]]; [discriminate H1 | discriminate H2 | exact H3].
Defined.

Lemma extension_accepts_witness :
  settle (validator (extension primitives.file ["JPG"] None)
            (VFile (mkFile 1 "a.jpg" "image/jpeg" 10)) VUndefined None (mkWorld ∅ []))
  = (mkWorld ∅ [], Success (VFile (mkFile 1 "a.jpg" "image/jpeg" 10))).
Proof.
  apply (proj2 (proj1 (extension_accepts primitives.file ["JPG"] None
                         (VFile (mkFile 1 "a.jpg" "image/jpeg" 10)) VUndefined None
                         (mkWorld ∅ []) (mkWorld ∅ [])
                         (mkFile 1 "a.jpg" "image/jpeg" 10) eq_refl))).
  exists "JPG". split; [left; reflexivity|reflexivity].
Defined.

Lemma array_error_keys_indexed_witness :
  Forall (fun e => indexed_key [VStr "a"; VNum 1; VStr "c"] (fst e))
         [("1.value", "Expected a string")].
Proof.
  apply (array_error_keys_indexed primitives.string None [VStr "a"; VNum 1; VStr "c"]
           VUndefined None (mkWorld ∅ []) (mkWorld ∅ [])).
  reflexivity.
Defined.

Lemma serverValidate_reports_under_description_witness :
  settle (validator
            (serverValidate (describe primitives.file "avatar")
               (check_reporting [10; 90] true) None)
            (VFile (mkFile 1 "me.png" "image/png" 10)) VUndefined
            (Some useZetForm.onProgress) (mkWorld ∅ []))
  = (mkWorld ∅ [Progress "avatar" 10; Progress "avatar" 90],
     Success (VFile (mkFile 1 "me.png" "image/png" 10))).
Proof.
  exact (proj1 (serverValidate_reports_under_description
                  (describe primitives.file "avatar") [10; 90] true None
                  (VFile (mkFile 1 "me.png" "image/png" 10)) VUndefined
                  useZetForm.onProgress (mkWorld ∅ []) (mkWorld ∅ [])
                  (mkFile 1 "me.png" "image/png" 10) eq_refl)).
Defined.
